(** * Tablut front end: socket service and reconciliation controller

    A shallow embedding of [tablut-socket.service.ts] (the request/ack
    transport) and of the [App] component (the controller that owns the
    canonical game snapshot and the state derived from it), followed by the
    properties established about them.

    JavaScript is single threaded: every handler runs to completion, and an
    [async] method is suspended only at its [await].  Each handler is
    therefore one total function on the state, and an [async] method is split
    at its [await] into the part that runs at once and the continuation that
    runs when the awaited promise settles. *)

From Stdlib Require Import Ascii.
From stdpp Require Import base strings list gmap pretty.

Open Scope string_scope.

(** ** JavaScript values

    The payloads the code receives as [any]: acknowledgment envelopes and
    caught errors.  Numbers are the integers, objects are property lists
    (first binding wins). *)
Module JS.

#[warnings="-register-all"] Inductive value :=
| Undefined
| Null
| Bool (b : bool)
| Num (n : Z)
| Str (s : string)
| Obj (props : list (string * value)).

(** [if (v)] *)
Definition truthy (v : value) : bool :=
  match v with
  | Undefined | Null => false
  | Bool b => b
  | Num n => negb (n =? 0)%Z
  | Str s => negb (String.eqb s "")
  | Obj _ => true
  end.

Fixpoint lookup_prop (k : string) (props : list (string * value)) : value :=
  match props with
  | [] => Undefined
  | (k', v) :: rest => if String.eqb k k' then v else lookup_prop k rest
  end.

(** [v?.k]: [undefined] on [null] and [undefined]; primitives carry none of
    the property names used here. *)
Definition opt_get (v : value) (k : string) : value :=
  match v with
  | Obj props => lookup_prop k props
  | _ => Undefined
  end.

(** [a ?? b] *)
Definition nullish_or (a b : value) : value :=
  match a with
  | Undefined | Null => b
  | _ => a
  end.

(** [String(v)], as applied by [new Error(v)] to its argument. *)
Definition to_string (v : value) : string :=
  match v with
  | Undefined => "undefined"
  | Null => "null"
  | Bool true => "true"
  | Bool false => "false"
  | Num n => pretty n
  | Str s => s
  | Obj _ => "[object Object]"
  end.

(** [new Error(v)]: an object whose [message] is [String(v)], or the empty
    string of the prototype when [v] is [undefined]. *)
Definition new_Error (v : value) : value :=
  match v with
  | Undefined => Obj [("message", Str "")]
  | _ => Obj [("message", Str (to_string v))]
  end.

(** [typeof v === 'string' ? v : ''] *)
Definition string_or_empty (v : value) : string :=
  match v with
  | Str s => s
  | _ => ""
  end.

(** Strings are the UTF-8 encodings of JavaScript strings, as the literals
    of this file are.  The white space of one byte: U+0020 and U+0009 to
    U+000D. *)
Definition is_space (c : Ascii.ascii) : bool :=
  let n := Ascii.nat_of_ascii c in
  ((n =? 32) || ((9 <=? n) && (n <=? 13)))%nat.

(** U+00A0 in UTF-8: C2 A0. *)
Definition is_space2 (c1 c2 : Ascii.ascii) : bool :=
  ((Ascii.nat_of_ascii c1 =? 194) && (Ascii.nat_of_ascii c2 =? 160))%nat.

(** The white space of three bytes in UTF-8: U+1680 (E1 9A 80), U+2000 to
    U+200A (E2 80 80 to 8A), U+2028 and U+2029 (E2 80 A8, A9), U+202F
    (E2 80 AF), U+205F (E2 81 9F), U+3000 (E3 80 80), U+FEFF (EF BB BF). *)
Definition is_space3 (c1 c2 c3 : Ascii.ascii) : bool :=
  let n1 := Ascii.nat_of_ascii c1 in
  let n2 := Ascii.nat_of_ascii c2 in
  let n3 := Ascii.nat_of_ascii c3 in
  (((n1 =? 225) && (n2 =? 154) && (n3 =? 128))
   || ((n1 =? 226) && (n2 =? 128)
       && (((128 <=? n3) && (n3 <=? 138)) || (n3 =? 168) || (n3 =? 169) || (n3 =? 175)))
   || ((n1 =? 226) && (n2 =? 129) && (n3 =? 159))
   || ((n1 =? 227) && (n2 =? 128) && (n3 =? 128))
   || ((n1 =? 239) && (n2 =? 187) && (n3 =? 191)))%nat.

(** The string past its first code point when that is white space. *)
Definition strip_space (s : string) : option string :=
  match s with
  | String c1 r1 =>
      if is_space c1 then Some r1
      else match r1 with
           | String c2 r2 =>
               if is_space2 c1 c2 then Some r2
               else match r2 with
                    | String c3 r3 => if is_space3 c1 c2 c3 then Some r3 else None
                    | EmptyString => None
                    end
           | EmptyString => None
           end
  | EmptyString => None
  end.

(** Strips leading white space; every step removes at least one byte, so
    the length of the string is fuel enough. *)
Fixpoint trim_start_fuel (fuel : nat) (s : string) : string :=
  match fuel with
  | O => s
  | S fuel' =>
      match strip_space s with
      | Some rest => trim_start_fuel fuel' rest
      | None => s
      end
  end.

Definition trim_start (s : string) : string := trim_start_fuel (String.length s) s.

(** Drops the longest suffix made of white space only. *)
Fixpoint trim_end (s : string) : string :=
  match s with
  | EmptyString => EmptyString
  | String c rest =>
      if String.eqb (trim_start s) "" then EmptyString else String c (trim_end rest)
  end.

(** [s.trim()]: strips the WhiteSpace and LineTerminator code points of
    ECMAScript from both ends. *)
Definition trim (s : string) : string := trim_end (trim_start s).

Fixpoint repeat_char (n : nat) (c : Ascii.ascii) : string :=
  match n with
  | O => EmptyString
  | S m => String c (repeat_char m c)
  end.

(** [s.padStart(n, c)] for a one-character filler. *)
Definition padStart (n : nat) (c : Ascii.ascii) (s : string) : string :=
  repeat_char (n - String.length s) c +:+ s.

End JS.

(** ** utils/types.ts *)

Inductive Side := ATTACKER | DEFENDER.
Inductive Piece := A | D | K.
Inductive Phase := IN_PROGRESS | GAME_OVER.
Inductive Difficulty := Diff2 | Diff4.

#[global] Instance Side_eq_dec : EqDecision Side.
Proof. solve_decision. Defined.
#[global] Instance Piece_eq_dec : EqDecision Piece.
Proof. solve_decision. Defined.
#[global] Instance Phase_eq_dec : EqDecision Phase.
Proof. solve_decision. Defined.

Record Pos := mkPos { row : Z; col : Z }.

#[global] Instance Pos_eq_dec : EqDecision Pos.
Proof. solve_decision. Defined.

Record TablutMove := mkMove {
  mv_from : Pos;
  mv_to : Pos;
  capturesPreview : list Pos
}.

Record MoveRecord := mkRecord {
  turn : Z;
  side : Side;
  rec_from : Pos;
  rec_to : Pos;
  captures : list Pos;
  capturedPieces : list Piece
}.

Record TablutState := mkState {
  id : string;
  version : Z;
  phase : Phase;
  sideToMove : Side;
  board : list (option Piece);
  kingHasLeftThrone : bool;
  humanSide : Side;
  botSide : Side;
  attackerIsHuman : bool;
  defenderIsHuman : bool;
  winnerSide : option Side;
  difficulty : Difficulty;
  legalMoves : list TablutMove;
  moveHistory : list MoveRecord
}.

(** The [move:result] push payload; [captures] is [any[]] and only its length
    is read. *)
Record MoveResult := mkResult {
  res_side : Side;
  res_from : Pos;
  res_to : Pos;
  res_captures : list JS.value
}.

(** ** services/tablut-socket.service.ts *)
Module TablutSocketService.

Definition ackTimeoutMs : Z := 20000.
Definition connectTimeoutMs : Z := 5000.

(** What a promise is settled with. *)
Inductive Outcome :=
| Resolved (data : JS.value)
| Rejected (err : JS.value).

(** Where the body of one [emitAck] call stands. *)
Inductive Stage :=
| AwaitConnect  (* suspended at [await this.ensureConnected()] *)
| AwaitAck      (* past [socket.emit]: ack callback registered *)
| Aborted.      (* returned from the [catch] branch *)

(** One [emitAck] call together with what it holds of the socket and of the
    timer queue.  A timer is recorded with the delay it was armed with;
    [settlements] lists every invocation of [resolve] or [reject], oldest
    first, and the promise keeps the first one. *)
Record Call := mkCall {
  event : string;
  payload : JS.value;
  stage : Stage;
  connected : bool;
  connect_requested : bool;
  connect_listeners : bool;
  connect_timer : option Z;
  settled : bool;
  ack_timer : option Z;
  emitted : list (string * JS.value);
  settlements : list Outcome
}.

Definition outcome (c : Call) : option Outcome := head (settlements c).

Definition settle (o : Outcome) (c : Call) : Call :=
  mkCall (event c) (payload c) (stage c) (connected c) (connect_requested c)
    (connect_listeners c) (connect_timer c) (settled c) (ack_timer c)
    (emitted c) (settlements c ++ [o]).

Definition set_stage (s : Stage) (c : Call) : Call :=
  mkCall (event c) (payload c) s (connected c) (connect_requested c)
    (connect_listeners c) (connect_timer c) (settled c) (ack_timer c)
    (emitted c) (settlements c).

Definition set_connected (b : bool) (c : Call) : Call :=
  mkCall (event c) (payload c) (stage c) b (connect_requested c)
    (connect_listeners c) (connect_timer c) (settled c) (ack_timer c)
    (emitted c) (settlements c).

Definition set_settled (b : bool) (c : Call) : Call :=
  mkCall (event c) (payload c) (stage c) (connected c) (connect_requested c)
    (connect_listeners c) (connect_timer c) b (ack_timer c)
    (emitted c) (settlements c).

Definition set_ack_timer (t : option Z) (c : Call) : Call :=
  mkCall (event c) (payload c) (stage c) (connected c) (connect_requested c)
    (connect_listeners c) (connect_timer c) (settled c) t
    (emitted c) (settlements c).

Definition socket_emit (c : Call) : Call :=
  mkCall (event c) (payload c) (stage c) (connected c) (connect_requested c)
    (connect_listeners c) (connect_timer c) (settled c) (ack_timer c)
    (emitted c ++ [(event c, payload c)]) (settlements c).

(** The promise executor of [ensureConnected] on a socket that is not
    connected: arm the timer, register both listeners, [socket.connect()]. *)
Definition ensureConnected_wait (c : Call) : Call :=
  mkCall (event c) (payload c) AwaitConnect (connected c) true
    true (Some connectTimeoutMs) (settled c) (ack_timer c)
    (emitted c) (settlements c).

(** [cleanup]: [clearTimeout(timer)] and both [socket.off]. *)
Definition cleanup (c : Call) : Call :=
  mkCall (event c) (payload c) (stage c) (connected c) (connect_requested c)
    false None (settled c) (ack_timer c)
    (emitted c) (settlements c).

(** [emitAck] after [ensureConnected] returned: [settled = false], arm the
    acknowledgment timer, emit the request with its callback. *)
Definition emitAck_send (c : Call) : Call :=
  socket_emit (set_ack_timer (Some ackTimeoutMs) (set_settled false (set_stage AwaitAck c))).

(** The [catch] branch of [emitAck]:
    [reject(new Error(err?.message ?? 'socket_not_connected')); return]. *)
Definition emitAck_catch (err : JS.value) (c : Call) : Call :=
  settle
    (Rejected (JS.new_Error
       (JS.nullish_or (JS.opt_get err "message") (JS.Str "socket_not_connected"))))
    (set_stage Aborted c).

(** The acknowledgment callback past its [settled] guard. *)
Definition ack_outcome (resp : JS.value) : Outcome :=
  if JS.truthy (JS.opt_get resp "ok")
  then Resolved (JS.opt_get resp "data")
  else Rejected (JS.new_Error (JS.nullish_or (JS.opt_get resp "error") (JS.Str "error"))).

Definition ack_timeout_error (ev : string) : JS.value :=
  JS.new_Error (JS.Str ("ack_timeout:" +:+ ev)).

(** [emitAck(event, payload)] up to its first suspension.  When the socket is
    connected [ensureConnected] returns at once and the rest of the body runs
    before any other task. *)
Definition emitAck (is_connected : bool) (ev : string) (pl : JS.value) : Call :=
  let c := mkCall ev pl AwaitConnect is_connected false false None false None [] [] in
  if is_connected then emitAck_send c else ensureConnected_wait c.

(** What can reach the call afterwards. *)
Inductive Signal :=
| SockConnect                       (* the socket emits [connect] *)
| SockConnectError (err : JS.value) (* the socket emits [connect_error] *)
| ConnectTimerFires
| AckTimerFires
| Ack (resp : JS.value).            (* the acknowledgment callback is invoked *)

Definition deliver (sig : Signal) (c : Call) : Call :=
  match sig with
  | SockConnect =>
      if connect_listeners c
      then emitAck_send (cleanup (set_connected true c))
      else c
  | SockConnectError err =>
      if connect_listeners c then emitAck_catch err (cleanup c) else c
  | ConnectTimerFires =>
      match connect_timer c with
      | Some _ => emitAck_catch (JS.new_Error (JS.Str "socket_connect_timeout")) (cleanup c)
      | None => c
      end
  | AckTimerFires =>
      match ack_timer c with
      | Some _ =>
          let c := set_ack_timer None c in
          if settled c then c
          else settle (Rejected (ack_timeout_error (event c))) (set_settled true c)
      | None => c
      end
  | Ack resp =>
      match stage c with
      | AwaitAck =>
          if settled c then c
          else settle (ack_outcome resp) (set_ack_timer None (set_settled true c))
      | _ => c
      end
  end.

Definition deliver_all (sigs : list Signal) (c : Call) : Call :=
  foldl (fun c sig => deliver sig c) c sigs.

(** The four request wrappers: the event name and payload handed to
    [emitAck]. *)
Definition pos_value (p : Pos) : JS.value :=
  JS.Obj [("row", JS.Num (row p)); ("col", JS.Num (col p))].

Definition side_value (s : Side) : JS.value :=
  JS.Str (match s with ATTACKER => "ATTACKER" | DEFENDER => "DEFENDER" end).

Definition difficulty_value (d : Difficulty) : JS.value :=
  JS.Num (match d with Diff2 => 2 | Diff4 => 4 end).

Definition Request : Type := string * JS.value.

Definition join (gameId : string) : Request :=
  ("join", JS.Obj [("gameId", JS.Str gameId)]).

Definition gameNew (humanSide : Side) (difficulty : Difficulty)
    (gameId : option string) : Request :=
  let payload := [("humanSide", side_value humanSide);
                  ("difficulty", difficulty_value difficulty)] in
  let payload :=
    match gameId with
    | Some g => if String.eqb g "" then payload else (payload ++ [("gameId", JS.Str g)])%list
    | None => payload
    end in
  ("game:new", JS.Obj payload).

Definition changeDifficulty (gameId : string) (difficulty : Difficulty) : Request :=
  ("game:change:diff",
   JS.Obj [("gameId", JS.Str gameId); ("difficulty", difficulty_value difficulty)]).

Definition playMove (gameId : string) (from to : Pos) : Request :=
  ("move:play",
   JS.Obj [("gameId", JS.Str gameId); ("from", pos_value from); ("to", pos_value to)]).

End TablutSocketService.

(** ** app.ts *)
Module App.

Import TablutSocketService.

Definition LS_KEY : string := "tablut:gameId".

(** *** The browser globals the component reads and writes

    [search_g] is the [g] parameter of [window.location.search];
    [storage_denied] says that touching [localStorage] throws (the case the
    source guards with [try]/[catch]); [storage] is its content. *)
Record Browser := mkBrowser {
  search_g : option string;
  storage_denied : bool;
  storage : gmap string string
}.

(** [localStorage.getItem(k)]; [None] when it throws. *)
Definition getItem (k : string) (b : Browser) : option (option string) :=
  if storage_denied b then None else Some (storage b !! k).

(** [localStorage.setItem(k, v)]; [None] when it throws. *)
Definition setItem (k v : string) (b : Browser) : option Browser :=
  if storage_denied b then None
  else Some (mkBrowser (search_g b) (storage_denied b) (<[k := v]> (storage b))).

Definition readIdFromUrl (b : Browser) : option string :=
  match search_g b with
  | Some g =>
      if negb (String.eqb g "") && negb (String.eqb (JS.trim g) "")
      then Some (JS.trim g) else None
  | None => None
  end.

Definition writeIdToUrl (id : string) (b : Browser) : Browser :=
  mkBrowser (Some id) (storage_denied b) (storage b).

Definition readGameIdFromLocalStorage (b : Browser) : option string :=
  match getItem LS_KEY b with
  | Some (Some id) =>
      if negb (String.eqb id "") && negb (String.eqb (JS.trim id) "")
      then Some id else None
  | Some None => None
  | None => None            (* catch *)
  end.

Definition writeGameIdToLocalStorage (id : string) (b : Browser) : Browser :=
  match setItem LS_KEY id b with
  | Some b' => b'
  | None => b               (* catch: noop *)
  end.

(** *** The component: its signals and private fields *)
Record App := mkApp {
  state : option TablutState;
  loading : bool;
  message : string;
  logs : list string;
  setupOpen : bool;
  setupSubmitting : bool;
  setupHumanSide : Side;
  setupDifficulty : Difficulty;
  selectedFrom : option Pos;
  currentStateGameId : option string;
  pendingNewGameWithBotOpening : bool
}.

Definition set_state (v : option TablutState) (a : App) : App :=
  mkApp v (loading a) (message a) (logs a) (setupOpen a) (setupSubmitting a)
    (setupHumanSide a) (setupDifficulty a) (selectedFrom a) (currentStateGameId a)
    (pendingNewGameWithBotOpening a).

Definition set_loading (v : bool) (a : App) : App :=
  mkApp (state a) v (message a) (logs a) (setupOpen a) (setupSubmitting a)
    (setupHumanSide a) (setupDifficulty a) (selectedFrom a) (currentStateGameId a)
    (pendingNewGameWithBotOpening a).

Definition set_message (v : string) (a : App) : App :=
  mkApp (state a) (loading a) v (logs a) (setupOpen a) (setupSubmitting a)
    (setupHumanSide a) (setupDifficulty a) (selectedFrom a) (currentStateGameId a)
    (pendingNewGameWithBotOpening a).

Definition set_logs (v : list string) (a : App) : App :=
  mkApp (state a) (loading a) (message a) v (setupOpen a) (setupSubmitting a)
    (setupHumanSide a) (setupDifficulty a) (selectedFrom a) (currentStateGameId a)
    (pendingNewGameWithBotOpening a).

Definition set_setupOpen (v : bool) (a : App) : App :=
  mkApp (state a) (loading a) (message a) (logs a) v (setupSubmitting a)
    (setupHumanSide a) (setupDifficulty a) (selectedFrom a) (currentStateGameId a)
    (pendingNewGameWithBotOpening a).

Definition set_setupSubmitting (v : bool) (a : App) : App :=
  mkApp (state a) (loading a) (message a) (logs a) (setupOpen a) v (setupHumanSide a)
    (setupDifficulty a) (selectedFrom a) (currentStateGameId a)
    (pendingNewGameWithBotOpening a).

Definition set_setupHumanSide (v : Side) (a : App) : App :=
  mkApp (state a) (loading a) (message a) (logs a) (setupOpen a) (setupSubmitting a)
    v (setupDifficulty a) (selectedFrom a) (currentStateGameId a)
    (pendingNewGameWithBotOpening a).

Definition set_setupDifficulty (v : Difficulty) (a : App) : App :=
  mkApp (state a) (loading a) (message a) (logs a) (setupOpen a) (setupSubmitting a)
    (setupHumanSide a) v (selectedFrom a) (currentStateGameId a)
    (pendingNewGameWithBotOpening a).

Definition set_selectedFrom (v : option Pos) (a : App) : App :=
  mkApp (state a) (loading a) (message a) (logs a) (setupOpen a) (setupSubmitting a)
    (setupHumanSide a) (setupDifficulty a) v (currentStateGameId a)
    (pendingNewGameWithBotOpening a).

Definition set_currentStateGameId (v : option string) (a : App) : App :=
  mkApp (state a) (loading a) (message a) (logs a) (setupOpen a) (setupSubmitting a)
    (setupHumanSide a) (setupDifficulty a) (selectedFrom a) v
    (pendingNewGameWithBotOpening a).

Definition set_pendingNewGameWithBotOpening (v : bool) (a : App) : App :=
  mkApp (state a) (loading a) (message a) (logs a) (setupOpen a) (setupSubmitting a)
    (setupHumanSide a) (setupDifficulty a) (selectedFrom a) (currentStateGameId a) v.

(** The component as constructed, before [bootstrapGame] runs. *)
Definition init : App :=
  mkApp None false "" [] false false DEFENDER Diff4 None None false.

(** [new Date()] as read by [pushLog]. *)
Record Clock := mkClock { hours : nat; minutes : nat; seconds : nat }.

(** *** Computed signals and template helpers *)

Definition sideLabel (s : Side) : string :=
  match s with ATTACKER => "Atacante" | DEFENDER => "Defensor" end.

Definition turnLabel (a : App) : string :=
  match state a with
  | None => "-"
  | Some st => sideLabel (sideToMove st)
  end.

Definition humanTurn (a : App) : bool :=
  match state a with
  | None => false
  | Some st =>
      bool_decide (sideToMove st = humanSide st) && bool_decide (phase st = IN_PROGRESS)
  end.

Definition same_square (p : Pos) (r c : Z) : bool :=
  ((row p =? r) && (col p =? c))%Z.

Definition selectedTargets (a : App) : list Pos :=
  match state a, selectedFrom a with
  | Some st, Some from =>
      map mv_to
        (List.filter (fun m => same_square (mv_from m) (row from) (col from)) (legalMoves st))
  | _, _ => []
  end.

(** [st.board[row * 9 + col] ?? null]: an index outside the array reads
    [undefined]. *)
Definition pieceAt (a : App) (r c : Z) : option Piece :=
  match state a with
  | None => None
  | Some st =>
      let i := (r * 9 + c)%Z in
      if (i <? 0)%Z then None
      else match board st !! Z.to_nat i with
           | Some cell => cell
           | None => None
           end
  end.

Definition isEdge (r c : Z) : bool := ((r =? 0) || (r =? 8) || (c =? 0) || (c =? 8))%Z.

Definition isThrone (r c : Z) : bool := ((r =? 4) && (c =? 4))%Z.

Definition isSelected (a : App) (r c : Z) : bool :=
  match selectedFrom a with
  | Some from => same_square from r c
  | None => false
  end.

Definition isTarget (a : App) (r c : Z) : bool :=
  existsb (fun p => same_square p r c) (selectedTargets a).

Definition isHumanPiece (piece : option Piece) (humanSide : Side) : bool :=
  match piece with
  | None => false
  | Some p =>
      match humanSide with
      | ATTACKER => bool_decide (p = A)
      | DEFENDER => bool_decide (p = D) || bool_decide (p = K)
      end
  end.

Definition hasMoveFrom (a : App) (pos : Pos) : bool :=
  match state a with
  | None => false
  | Some st => existsb (fun m => same_square (mv_from m) (row pos) (col pos)) (legalMoves st)
  end.

(** *** The move log *)

(** The suffix [c ? ` x${c}` : ''] shared by both line formats. *)
Definition captureSuffix (c : nat) : string :=
  match c with
  | O => ""
  | _ => " x" +:+ pretty c
  end.

Definition squareText (p : Pos) : string :=
  "(" +:+ pretty (row p) +:+ "," +:+ pretty (col p) +:+ ")".

Definition two_digits (n : nat) : string := JS.padStart 2 "0"%char (pretty n).

(** The line [pushLog] stores: [[hh:mm:ss] msg]. *)
Definition stamp (now : Clock) (msg : string) : string :=
  "[" +:+ two_digits (hours now) +:+ ":" +:+ two_digits (minutes now) +:+ ":"
      +:+ two_digits (seconds now) +:+ "] " +:+ msg.

Definition pushLog (now : Clock) (msg : string) (a : App) : App :=
  set_logs (take 40 (stamp now msg :: logs a)) a.

(** One line of [buildLogsFromHistory]. *)
Definition historyLine (mv : MoveRecord) : string :=
  "#" +:+ pretty (turn mv) +:+ " " +:+ sideLabel (side mv) +:+ ": "
      +:+ squareText (rec_from mv) +:+ " -> " +:+ squareText (rec_to mv)
      +:+ captureSuffix (length (captures mv)).

Definition buildLogsFromHistory (st : TablutState) : list string :=
  take 40 (reverse (map historyLine (moveHistory st))).

Definition toFriendlyError (raw : JS.value) : option string :=
  let msg := JS.string_or_empty raw in
  if String.eqb msg "" then None
  else if String.prefix "ack_timeout:" msg then
    Some "La jugada está tardando más de lo esperado. Intenta de nuevo en unos segundos."
  else if String.eqb msg "socket_connect_timeout" || String.eqb msg "socket_not_connected" then
    Some "No se pudo conectar al servidor de juego."
  else if String.eqb msg "illegal_move" then
    Some "La jugada no es válida según el estado actual."
  else None.

(** [friendly ? `${prefix}. ${friendly}` : prefix] *)
Definition failureText (prefix : string) (err : JS.value) : string :=
  match toFriendlyError (JS.opt_get err "message") with
  | Some friendly =>
      if String.eqb friendly "" then prefix else prefix +:+ ". " +:+ friendly
  | None => prefix
  end.

(** *** Requests in flight

    What an awaited service call settles with, as the component sees it, and
    the continuation suspended on it. *)
Inductive CallResult :=
| Fulfilled (data : TablutState)
| Failed (err : JS.value).

Inductive Awaiting :=
| AwaitJoin                         (* [runAction] from [bootstrapGame] *)
| AwaitDifficulty                   (* [runAction] from [onDifficultyChange] *)
| AwaitMove                         (* [runAction] from [onCellClick] *)
| AwaitNewGame (botStarts : bool).  (* [startNewGame], with its captured local *)

(** *** Push handlers registered by the constructor *)

Definition gameChanged (a : App) (st : TablutState) : bool :=
  negb (bool_decide (currentStateGameId a = Some (id st))).

Definition botAlreadyOpened (st : TablutState) : bool :=
  bool_decide (humanSide st = DEFENDER) && (0 <? length (moveHistory st))%nat.

Definition onState (st : TablutState) (w : App * Browser) : App * Browser :=
  let '(a, b) := w in
  let changed := gameChanged a st in
  let a := set_currentStateGameId (Some (id st)) a in
  let a := set_state (Some st) a in
  let a := set_message "" a in
  let a := set_selectedFrom None a in
  let b := writeIdToUrl (id st) b in
  let b := writeGameIdToLocalStorage (id st) b in
  let a := if changed then set_logs (buildLogsFromHistory st) a else a in
  let a :=
    if pendingNewGameWithBotOpening a then
      if botAlreadyOpened st then
        set_setupSubmitting false
          (set_loading false (set_pendingNewGameWithBotOpening false a))
      else set_loading true a
    else set_setupSubmitting false (set_loading false a) in
  let a := if setupOpen a then set_setupOpen false a else a in
  (a, b).

Definition moveResultText (mv : MoveResult) : string :=
  sideLabel (res_side mv) +:+ ": " +:+ squareText (res_from mv) +:+ " -> "
    +:+ squareText (res_to mv) +:+ captureSuffix (length (res_captures mv)).

Definition onMoveResult (now : Clock) (mv : MoveResult) (a : App) : App :=
  pushLog now (moveResultText mv) a.

Definition onTurnNote (now : Clock) (msg : string) (a : App) : App :=
  pushLog now msg a.

Definition onBotThinking (active : bool) (a : App) : App :=
  if pendingNewGameWithBotOpening a then
    let a := set_loading active a in
    if negb active then
      set_setupSubmitting false (set_pendingNewGameWithBotOpening false a)
    else a
  else a.

Definition onGameOver (now : Clock) (winner : Side) (a : App) : App :=
  let label := sideLabel winner in
  let a := pushLog now ("Fin de partida. Ganador: " +:+ label) a in
  set_message ("Juego terminado. Ganador: " +:+ label) a.

(** *** Methods *)

(** [runAction] up to its [await]: the action is started and its request is
    handed to the service. *)
Definition runAction (req : Request) (a : App) : App * list Request :=
  (set_loading true a, [req]).

(** [runAction] resumed: nothing on success, the [catch] branch on failure. *)
Definition runAction_resume (errorMessage : string) (r : CallResult) (a : App) : App :=
  match r with
  | Fulfilled _ => a
  | Failed err =>
      let a := set_message (failureText errorMessage err) a in
      set_loading false a
  end.

Definition bootstrapGame (w : App * Browser) : App * Browser * list Request :=
  let '(a, b) := w in
  let a := set_loading true a in
  let a := set_message "Cargando partida..." a in
  let fromUrl := readIdFromUrl b in
  let fromStorage := readGameIdFromLocalStorage b in
  let gameId := match fromUrl with Some g => Some g | None => fromStorage end in
  match gameId with
  | Some g =>
      if negb (String.eqb g "") then
        let '(a, reqs) := runAction (join g) a in (a, b, reqs)
      else (set_setupOpen true (set_message "" (set_loading false a)), b, [])
  | None => (set_setupOpen true (set_message "" (set_loading false a)), b, [])
  end.

(** [startNewGame] up to [await this.ws.gameNew(...)]. *)
Definition startNewGame (a : App) : App * list Request :=
  let humanSide := setupHumanSide a in
  let botStarts := bool_decide (humanSide = DEFENDER) in
  let a := set_pendingNewGameWithBotOpening botStarts a in
  let a := set_setupSubmitting botStarts a in
  let a := set_loading botStarts a in
  let a := set_message "" a in
  let a := set_logs [] a in
  let a := set_selectedFrom None a in
  let a := set_state None a in
  let a := set_currentStateGameId None a in
  let a := set_setupOpen false a in
  (a, [gameNew humanSide (setupDifficulty a) None]).

(** [startNewGame] resumed, with the [botStarts] it computed before. *)
Definition startNewGame_resume (botStarts : bool) (r : CallResult) (a : App) : App :=
  match r with
  | Fulfilled _ =>
      if negb botStarts then set_setupSubmitting false (set_loading false a) else a
  | Failed err =>
      let a := set_message (failureText "No se pudo crear la partida" err) a in
      let a := set_pendingNewGameWithBotOpening false a in
      let a := set_loading false a in
      let a := set_setupSubmitting false a in
      set_setupOpen true a
  end.

Definition onNewGameClick (a : App) : App := set_setupOpen true a.

Definition onDifficultyChange (next : Difficulty) (a : App) : App * list Request :=
  let a := set_setupDifficulty next a in
  match state a with
  | None => (a, [])
  | Some st => runAction (changeDifficulty (id st) next) a
  end.

Definition onSelectHumanSide (s : Side) (a : App) : App := set_setupHumanSide s a.

Definition onCellClick (r c : Z) (a : App) : App * list Request :=
  match state a with
  | None => (a, [])
  | Some st =>
      if negb (humanTurn a) then (a, [])
      else
        let clicked := mkPos r c in
        let piece := pieceAt a r c in
        match selectedFrom a with
        | None =>
            if isHumanPiece piece (humanSide st) && hasMoveFrom a clicked
            then (set_selectedFrom (Some clicked) a, [])
            else (a, [])
        | Some from =>
            if same_square from r c then (set_selectedFrom None a, [])
            else if existsb (fun p => same_square p r c) (selectedTargets a) then
              runAction (playMove (id st) from clicked) (set_selectedFrom None a)
            else if isHumanPiece piece (humanSide st) && hasMoveFrom a clicked
            then (set_selectedFrom (Some clicked) a, [])
            else (set_selectedFrom None a, [])
        end
  end.

Definition errorMessage_of (k : Awaiting) : string :=
  match k with
  | AwaitJoin => "No se pudo cargar la partida"
  | AwaitDifficulty => "No se pudo cambiar dificultad"
  | AwaitMove => "No se pudo jugar el movimiento"
  | AwaitNewGame _ => "No se pudo crear la partida"
  end.

(** The continuation of a suspended method. *)
Definition resume (k : Awaiting) (r : CallResult) (a : App) : App :=
  match k with
  | AwaitNewGame botStarts => startNewGame_resume botStarts r a
  | _ => runAction_resume (errorMessage_of k) r a
  end.

(** *** The component as a machine

    Everything that makes the component run: the five push notifications,
    the user's gestures, and the settling of a call it awaits. *)
Inductive Event :=
| StatePush (st : TablutState)
| MoveResultPush (now : Clock) (mv : MoveResult)
| TurnNotePush (now : Clock) (msg : string)
| BotThinkingPush (active : bool)
| GameOverPush (now : Clock) (winner : Side)
| Bootstrap
| StartNewGame
| NewGameClick
| DifficultyChange (next : Difficulty)
| SelectHumanSide (s : Side)
| CellClick (r c : Z)
| Settles (k : Awaiting) (r : CallResult).

Record World := mkWorld { app : App; browser : Browser }.

(** One event: the new world and the requests handed to the service. *)
Definition step (e : Event) (w : World) : World * list Request :=
  let a := app w in
  let b := browser w in
  match e with
  | StatePush st => let '(a, b) := onState st (a, b) in (mkWorld a b, [])
  | MoveResultPush now mv => (mkWorld (onMoveResult now mv a) b, [])
  | TurnNotePush now msg => (mkWorld (onTurnNote now msg a) b, [])
  | BotThinkingPush active => (mkWorld (onBotThinking active a) b, [])
  | GameOverPush now winner => (mkWorld (onGameOver now winner a) b, [])
  | Bootstrap => let '(a, b, reqs) := bootstrapGame (a, b) in (mkWorld a b, reqs)
  | StartNewGame => let '(a, reqs) := startNewGame a in (mkWorld a b, reqs)
  | NewGameClick => (mkWorld (onNewGameClick a) b, [])
  | DifficultyChange next =>
      let '(a, reqs) := onDifficultyChange next a in (mkWorld a b, reqs)
  | SelectHumanSide s => (mkWorld (onSelectHumanSide s a) b, [])
  | CellClick r c => let '(a, reqs) := onCellClick r c a in (mkWorld a b, reqs)
  | Settles k r => (mkWorld (resume k r a) b, [])
  end.

Definition after (e : Event) (w : World) : World := fst (step e w).

Definition run (evs : list Event) (w : World) : World :=
  foldl (fun w e => after e w) w evs.

End App.

(** ** Vocabulary of the properties *)
Module Props.

Import TablutSocketService App.

(** The two envelopes of the protocol. *)
Definition ok_envelope (data : JS.value) : JS.value :=
  JS.Obj [("ok", JS.Bool true); ("data", data)].

Definition error_envelope (error : string) : JS.value :=
  JS.Obj [("ok", JS.Bool false); ("error", JS.Str error)].

(** An envelope of the form [{ok: true, ...}]: its [ok] is the boolean
    [true]. *)
Definition ok_is_true (resp : JS.value) : bool :=
  match JS.opt_get resp "ok" with
  | JS.Bool true => true
  | _ => false
  end.

(** A call that has not been decided: no [resolve], no [reject] yet; either
    waiting for the connection with both listeners and the 5 s timer live, or
    waiting for the acknowledgment with the 20 s timer live. *)
Definition undecided (ev : string) (c : Call) : Prop :=
  event c = ev /\ settlements c = [] /\
  match stage c with
  | AwaitConnect =>
      connect_listeners c = true /\ connect_timer c = Some connectTimeoutMs /\
      ack_timer c = None /\ emitted c = []
  | AwaitAck =>
      connect_listeners c = false /\ connect_timer c = None /\
      settled c = false /\ ack_timer c = Some ackTimeoutMs
  | Aborted => False
  end.

(** A call that has been decided: the connection listeners are gone, and the
    guard or the early return stops every later callback. *)
Definition decided (c : Call) : Prop :=
  connect_listeners c = false /\ connect_timer c = None /\
  match stage c with
  | AwaitConnect => False
  | AwaitAck => settled c = true
  | Aborted => ack_timer c = None
  end.

(** A log line written by [pushLog]. *)
Definition stamped (line : string) : Prop :=
  exists now msg, line = stamp now msg.

(** A log line written by [buildLogsFromHistory]. *)
Definition from_history (line : string) : Prop :=
  exists mv, line = historyLine mv.

(** The lines produced since the log was last emptied or rebuilt, oldest
    first, without any cap: what one event adds to them. *)
Definition chronicle_step (e : Event) (w : World) (lines : list string) : list string :=
  match e with
  | StatePush st =>
      if gameChanged (app w) st then map historyLine (moveHistory st) else lines
  | MoveResultPush now mv => (lines ++ [stamp now (moveResultText mv)])%list
  | TurnNotePush now msg => (lines ++ [stamp now msg])%list
  | GameOverPush now winner =>
      (lines ++ [stamp now ("Fin de partida. Ganador: " +:+ sideLabel winner)])%list
  | StartNewGame => []
  | _ => lines
  end.

Fixpoint chronicle (evs : list Event) (w : World) (lines : list string) : list string :=
  match evs with
  | [] => lines
  | e :: evs => chronicle evs (after e w) (chronicle_step e w lines)
  end.

(** The two events that end the wait for the bot's opening move: a snapshot
    in which the bot has already opened, and [bot:thinking] going inactive. *)
Definition ends_opening (e : Event) : bool :=
  match e with
  | StatePush st => botAlreadyOpened st
  | BotThinkingPush active => negb active
  | _ => false
  end.

(** The events that give the wait up instead: another [startNewGame], and
    the failure of the [game:new] call. *)
Definition gives_up_opening (e : Event) : bool :=
  match e with
  | StartNewGame => true
  | Settles (AwaitNewGame _) (Failed _) => true
  | _ => false
  end.

Definition keeps_waiting (e : Event) : Prop :=
  ends_opening e = false /\ gives_up_opening e = false.

Definition is_state_push (e : Event) : bool :=
  match e with
  | StatePush _ => true
  | _ => false
  end.

(** A selection is only ever held on the human's turn. *)
Definition selection_sound (a : App) : Prop :=
  selectedFrom a = None \/ humanTurn a = true.

End Props.

(** ** Sample data *)
Module Samples.

Import TablutSocketService App.

Definition browser_plain : Browser := mkBrowser None false ∅.

(** A browser that refuses access to [localStorage]. *)
Definition browser_no_storage : Browser := mkBrowser None true ∅.

(** A page opened on [?g=g1]. *)
Definition browser_with_link : Browser := mkBrowser (Some "g1") false ∅.

Definition opening_move : MoveRecord :=
  mkRecord 1 ATTACKER (mkPos 0 3) (mkPos 2 3) [] [].

(** The human defends, the bot has made its opening move. *)
Definition snapshot_opened : TablutState :=
  mkState "g1" 1 IN_PROGRESS DEFENDER [] false DEFENDER ATTACKER false true None Diff4
    [] [opening_move].

(** The human defends, the bot has not moved yet. *)
Definition snapshot_unopened : TablutState :=
  mkState "g1" 0 IN_PROGRESS ATTACKER [] false DEFENDER ATTACKER false true None Diff4
    [] [].

Definition board_one_attacker : list (option Piece) :=
  (replicate 31 None ++ [Some A] ++ replicate 49 None)%list.

(** The human attacks and is to move; the attacker on (3,4) may go to
    (4,4). *)
Definition snapshot_attacker : TablutState :=
  mkState "g2" 3 IN_PROGRESS ATTACKER board_one_attacker false ATTACKER DEFENDER
    true false None Diff4
    [mkMove (mkPos 3 4) (mkPos 4 4) []] [].

(** An acknowledgment whose [ok] is the number 1. *)
Definition envelope_ok_one : JS.value :=
  JS.Obj [("ok", JS.Num 1); ("data", JS.Str "stale")].

Definition noon : Clock := mkClock 12 0 0.

End Samples.

(** ** Client session identity (tablut-socket.service.ts) *)
Module ClientSession.

Import App.

Definition CLIENT_SESSION_LS_KEY : string := "tablut:clientSessionId".

(** What one call of [generateSessionId] reads from its surroundings:
    [crypto.randomUUID()] when the function exists, [Date.now()], and the
    text of [Math.random().toString(36)]. *)
Record Entropy := mkEntropy {
  randomUUID : option string;
  now_ms : Z;
  random36 : string
}.

(** [s.slice(i, j)] for [0 <= i <= j]. *)
Definition slice (i j : nat) (s : string) : string := String.substring i (j - i) s.

Definition generateSessionId (e : Entropy) : string :=
  match randomUUID e with
  | Some uuid => uuid
  | None => "sid_" +:+ pretty (now_ms e) +:+ "_" +:+ slice 2 12 (random36 e)
  end.

(** [getClientSessionId]; [e1] and [e2] are what the first and the second
    call of [generateSessionId] would read.  Every [None] of the storage is
    an exception caught by the [catch] branch. *)
Definition getClientSessionId (e1 e2 : Entropy) (b : Browser) : string * Browser :=
  match getItem CLIENT_SESSION_LS_KEY b with
  | None => (generateSessionId e1, b)
  | Some existing =>
      match existing with
      | Some id =>
          if negb (String.eqb id "") && negb (String.eqb (JS.trim id) "")
          then (id, b)
          else
            let created := generateSessionId e1 in
            match setItem CLIENT_SESSION_LS_KEY created b with
            | Some b' => (created, b')
            | None => (generateSessionId e2, b)
            end
      | None =>
          let created := generateSessionId e1 in
          match setItem CLIENT_SESSION_LS_KEY created b with
          | Some b' => (created, b')
          | None => (generateSessionId e2, b)
          end
      end
  end.

End ClientSession.

(** ** Template helpers of the component (app.ts) *)
Module AppView.

Import App.

(** [Array.from({ length: 9 }, (_, i) => i)] *)
Definition rows : list Z := map Z.of_nat (seq 0 9).
Definition cols : list Z := map Z.of_nat (seq 0 9).

End AppView.

(** ** Invariants of the running component *)
Module Invariants.

Import TablutSocketService App.

(** The bookkeeping around the held snapshot: the remembered identifier is
    the identifier of the held snapshot, and so is what the URL and, when it
    can be written, local storage hold. *)
Definition identity_in_sync (w : World) : Prop :=
  match state (app w) with
  | Some st =>
      currentStateGameId (app w) = Some (id st)
      /\ search_g (browser w) = Some (id st)
      /\ (storage_denied (browser w) = false ->
          storage (browser w) !! LS_KEY = Some (id st))
  | None => currentStateGameId (app w) = None
  end.

(** A held selection can be played: it is the human's turn, the selected
    square carries a piece of the human side, and the held snapshot lists a
    move from it. *)
Definition selection_playable (a : App) : Prop :=
  match selectedFrom a with
  | None => True
  | Some p =>
      exists st, state a = Some st
        /\ humanTurn a = true
        /\ isHumanPiece (pieceAt a (row p) (col p)) (humanSide st) = true
        /\ hasMoveFrom a p = true
  end.

(** What every reachable [emitAck] call looks like, stage by stage: the
    request is out exactly in [AwaitAck]; a timer or a listener is live only
    as long as nothing is settled. *)
Definition call_shape (con : bool) (ev : string) (pl : JS.value) (c : Call) : Prop :=
  event c = ev /\ payload c = pl /\ connect_requested c = negb con /\
  match stage c with
  | AwaitConnect =>
      emitted c = [] /\ settlements c = [] /\ connected c = false
      /\ connect_listeners c = true /\ connect_timer c = Some connectTimeoutMs
      /\ ack_timer c = None
  | AwaitAck =>
      emitted c = [(ev, pl)] /\ connected c = true
      /\ connect_listeners c = false /\ connect_timer c = None
      /\ (if settled c
          then ack_timer c = None /\ length (settlements c) = 1%nat
          else ack_timer c = Some ackTimeoutMs /\ settlements c = [])
  | Aborted =>
      emitted c = [] /\ connected c = false
      /\ connect_listeners c = false /\ connect_timer c = None
      /\ ack_timer c = None /\ exists err, settlements c = [Rejected err]
  end.

(** The event names the service is called with. *)
Definition request_kind (e : Event) : option string :=
  match e with
  | Bootstrap => Some "join"
  | StartNewGame => Some "game:new"
  | DifficultyChange _ => Some "game:change:diff"
  | CellClick _ _ => Some "move:play"
  | _ => None
  end.

(** The three texts [toFriendlyError] can produce. *)
Definition friendly_texts : list string :=
  ["La jugada está tardando más de lo esperado. Intenta de nuevo en unos segundos.";
   "No se pudo conectar al servidor de juego.";
   "La jugada no es válida según el estado actual."].

(** A clock reading as [Date] gives it. *)
Definition clock_in_range (now : Clock) : Prop :=
  (hours now < 24 /\ minutes now < 60 /\ seconds now < 60)%nat.

End Invariants.

(** ** The request/ack transport *)
Module SocketFacts.

Import TablutSocketService Props.

Local Open Scope nat_scope.

Lemma signals_cons sig sigs c :
  deliver_all (sig :: sigs) c = deliver_all sigs (deliver sig c).
Proof. reflexivity. Qed.

Lemma signals_snoc sigs sig c :
  deliver_all (sigs ++ [sig]) c = deliver sig (deliver_all sigs c).
Proof. unfold deliver_all. by rewrite foldl_app. Qed.

(** Once decided, a call ignores every signal. *)
Lemma decided_deliver sig c :
  decided c →
  decided (deliver sig c)
  ∧ settlements (deliver sig c) = settlements c
  ∧ emitted (deliver sig c) = emitted c.
Proof.
  intros (Hl & Ht & Hs).
  destruct c as [ev pl stg con req lis ctm stl atm em ss].
  simpl in *; subst lis ctm.
  destruct sig; simpl; unfold decided; simpl; auto.
  - destruct atm as [t|]; simpl; [|auto].
    destruct stg; simpl in *; try done. subst stl; simpl; auto.
  - destruct stg; simpl in *; try done. subst stl; simpl; auto.
Qed.

Lemma decided_run sigs c :
  decided c →
  settlements (deliver_all sigs c) = settlements c
  ∧ emitted (deliver_all sigs c) = emitted c.
Proof.
  revert c. induction sigs as [|sig sigs IH]; intros c Hc; [done|].
  destruct (decided_deliver sig c Hc) as (Hd & Hs & He).
  destruct (IH _ Hd) as [IH1 IH2].
  rewrite signals_cons, IH1, IH2. done.
Qed.

Lemma emitAck_undecided con ev pl : undecided ev (emitAck con ev pl).
Proof. destruct con; repeat split. Qed.

(** One signal either leaves the call undecided or decides it, with exactly
    one settlement. *)
Lemma undecided_deliver ev sig c :
  undecided ev c →
  undecided ev (deliver sig c)
  ∨ (decided (deliver sig c) ∧ length (settlements (deliver sig c)) = 1).
Proof.
  intros (He & Hs & Hst).
  destruct c as [ev' pl stg con req lis ctm stl atm em ss].
  simpl in *; subst ev' ss.
  destruct stg; [| |done]; destruct Hst as (-> & -> & -> & ->);
    destruct sig; simpl;
    first [ by left; repeat split | by right; repeat split ].
Qed.

Lemma reachable_call sigs con ev pl :
  let c := deliver_all sigs (emitAck con ev pl) in
  undecided ev c ∨ (decided c ∧ length (settlements c) = 1).
Proof.
  induction sigs as [|sig sigs IH] using rev_ind; simpl.
  - left. apply emitAck_undecided.
  - rewrite signals_snoc. destruct IH as [Hu | [Hd Hn]].
    + by apply undecided_deliver.
    + right. destruct (decided_deliver sig _ Hd) as (Hd' & Hs & _).
      split; [done|]. by rewrite Hs.
Qed.

(** [resolve] and [reject] are invoked at most once in all, whatever reaches
    the call and in whatever order. *)
Lemma emitAck_settles_at_most_once sigs con ev pl :
  length (settlements (deliver_all sigs (emitAck con ev pl))) ≤ 1.
Proof.
  destruct (reachable_call sigs con ev pl) as [(_ & Hs & _) | [_ Hn]]; simpl in *.
  - rewrite Hs. simpl. lia.
  - lia.
Qed.

(** A call seen waiting for its acknowledgment is undecided, its 20 s timer
    armed. *)
Lemma awaiting_ack_undecided sigs con ev pl :
  let c := deliver_all sigs (emitAck con ev pl) in
  stage c = AwaitAck → settled c = false →
  undecided ev c ∧ ack_timer c = Some ackTimeoutMs.
Proof.
  intros c Hst Hse.
  destruct (reachable_call sigs con ev pl) as [Hu | [(_ & _ & Hd) _]];
    fold c in Hu || fold c in Hd.
  - split; [done|]. destruct Hu as (_ & _ & Hu). rewrite Hst in Hu. tauto.
  - rewrite Hst in Hd. congruence.
Qed.

Lemma awaiting_connect_undecided sigs con ev pl :
  let c := deliver_all sigs (emitAck con ev pl) in
  stage c = AwaitConnect → undecided ev c.
Proof.
  intros c Hst.
  destruct (reachable_call sigs con ev pl) as [Hu | [(_ & _ & Hd) _]];
    fold c in Hu || fold c in Hd.
  - done.
  - by rewrite Hst in Hd.
Qed.

(** The first acknowledgment decides an undecided call, for good. *)
Lemma first_ack_decides ev c resp later :
  undecided ev c → stage c = AwaitAck →
  settlements (deliver_all later (deliver (Ack resp) c)) = [ack_outcome resp].
Proof.
  intros (He & Hs & Hst) Hstage.
  destruct c as [ev' pl stg con req lis ctm stl atm em ss].
  simpl in *; subst stg ev' ss. destruct Hst as (-> & -> & -> & ->).
  match goal with |- settlements (deliver_all later ?c') = _ =>
    destruct (decided_run later c') as [Hr _]; [by repeat split|rewrite Hr] end.
  reflexivity.
Qed.

(** So does the acknowledgment timer when it fires first. *)
Lemma first_timeout_decides ev c later :
  undecided ev c → stage c = AwaitAck →
  settlements (deliver_all later (deliver AckTimerFires c))
  = [Rejected (ack_timeout_error ev)].
Proof.
  intros (He & Hs & Hst) Hstage.
  destruct c as [ev' pl stg con req lis ctm stl atm em ss].
  simpl in *; subst stg ev' ss. destruct Hst as (-> & -> & -> & ->).
  match goal with |- settlements (deliver_all later ?c') = _ =>
    destruct (decided_run later c') as [Hr _]; [by repeat split|rewrite Hr] end.
  reflexivity.
Qed.

(** A failure of [ensureConnected] decides the call without a request. *)
Lemma connect_failure_decides ev c sig err later :
  undecided ev c → stage c = AwaitConnect →
  (sig = SockConnectError err
   ∨ (sig = ConnectTimerFires ∧ err = JS.new_Error (JS.Str "socket_connect_timeout"))) →
  let c' := deliver_all later (deliver sig c) in
  settlements c' =
    [Rejected (JS.new_Error
       (JS.nullish_or (JS.opt_get err "message") (JS.Str "socket_not_connected")))]
  ∧ emitted c' = [].
Proof.
  intros (He & Hs & Hst) Hstage Hsig.
  destruct c as [ev' pl stg con req lis ctm stl atm em ss].
  simpl in *; subst stg ev' ss. destruct Hst as (-> & -> & -> & ->).
  destruct Hsig as [-> | [-> ->]]; simpl;
    match goal with |- settlements (deliver_all later ?c') = _ ∧ _ =>
      destruct (decided_run later c') as [Hr1 Hr2]; [by repeat split|rewrite Hr1, Hr2] end;
    done.
Qed.

(** C6. A call made through [emitAck] whose request is out and undecided has
    its 20 s timer armed and settles exactly once, on whichever comes first:
    an acknowledgment [{ok: true, data}] resolves it with [data], an
    acknowledgment [{ok: false, error}] rejects it with [error], the timer
    rejects it with [ack_timeout:<event>]; nothing that arrives later, be it
    an acknowledgment after the timer, adds a settlement or changes the
    outcome. *)
Theorem emitAck_settles_exactly_once con ev pl (sooner later : list Signal) :
  let c := deliver_all sooner (emitAck con ev pl) in
  stage c = AwaitAck → settled c = false →
  ack_timer c = Some 20000%Z
  ∧ settlements c = []
  ∧ (∀ data,
       settlements (deliver_all later (deliver (Ack (ok_envelope data)) c))
       = [Resolved data])
  ∧ (∀ error,
       settlements (deliver_all later (deliver (Ack (error_envelope error)) c))
       = [Rejected (JS.new_Error (JS.Str error))])
  ∧ settlements (deliver_all later (deliver AckTimerFires c))
    = [Rejected (JS.new_Error (JS.Str ("ack_timeout:" +:+ ev)))]
  ∧ (∀ resp,
       outcome (deliver_all later (deliver (Ack resp) (deliver AckTimerFires c)))
       = Some (Rejected (JS.new_Error (JS.Str ("ack_timeout:" +:+ ev))))).
Proof.
  intros c Hst Hse.
  destruct (awaiting_ack_undecided sooner con ev pl Hst Hse) as [Hu Ht]; fold c in Hu, Ht.
  split; [exact Ht|].
  split; [by destruct Hu as (_ & ? & _)|].
  split; [intros data; by rewrite (first_ack_decides ev)|].
  split; [intros error; by rewrite (first_ack_decides ev)|].
  split; [by rewrite (first_timeout_decides ev)|].
  intros resp. unfold outcome. rewrite <- signals_cons.
  by rewrite (first_timeout_decides ev).
Qed.

Lemma emitAck_settles_exactly_once_witness :
  settlements
    (deliver_all [Ack (ok_envelope JS.Null); AckTimerFires]
       (deliver AckTimerFires (emitAck true "move:play" JS.Null)))
  = [Rejected (JS.new_Error (JS.Str "ack_timeout:move:play"))].
Proof.
  pose proof (emitAck_settles_exactly_once true "move:play" JS.Null []
                [Ack (ok_envelope JS.Null); AckTimerFires] eq_refl eq_refl)
    as (_ & _ & _ & _ & H & _).
  exact H.
Defined.

(** C7. [emitAck] on a socket that is not connected emits nothing and waits
    for [ensureConnected], whose timer is armed with 5 s.  When
    [ensureConnected] fails, on [connect_error] or on its timer, the call is
    rejected with the message of the failure ([socket_connect_timeout] for
    the timer, [socket_not_connected] when the error carries none), and no
    request is emitted then or later. *)
Theorem emitAck_fails_when_not_connected ev pl (sooner later : list Signal) :
  let c := deliver_all sooner (emitAck false ev pl) in
  stage c = AwaitConnect →
  emitted c = [] ∧ connect_timer c = Some 5000%Z
  ∧ (∀ err,
       let c' := deliver_all later (deliver (SockConnectError err) c) in
       settlements c' =
         [Rejected (JS.new_Error
            (JS.nullish_or (JS.opt_get err "message") (JS.Str "socket_not_connected")))]
       ∧ emitted c' = [])
  ∧ (∀ reason,
       let c' :=
         deliver_all later (deliver (SockConnectError (JS.new_Error (JS.Str reason))) c) in
       settlements c' = [Rejected (JS.new_Error (JS.Str reason))] ∧ emitted c' = [])
  ∧ (let c' := deliver_all later (deliver ConnectTimerFires c) in
     settlements c' = [Rejected (JS.new_Error (JS.Str "socket_connect_timeout"))]
     ∧ emitted c' = []).
Proof.
  intros c Hst.
  pose proof (awaiting_connect_undecided sooner false ev pl Hst) as Hu; fold c in Hu.
  split; [by destruct Hu as (_ & _ & Hu); rewrite Hst in Hu; destruct Hu as (_ & _ & _ & ?)|].
  split; [by destruct Hu as (_ & _ & Hu); rewrite Hst in Hu; destruct Hu as (_ & ? & _)|].
  split; [intros err; apply (connect_failure_decides ev); auto|].
  split; [intros reason;
          apply (connect_failure_decides ev c _ (JS.new_Error (JS.Str reason))); auto|].
  apply (connect_failure_decides ev c _ (JS.new_Error (JS.Str "socket_connect_timeout")));
    auto.
Qed.

Lemma emitAck_fails_when_not_connected_witness :
  let c := deliver_all [Ack (ok_envelope JS.Null)]
             (deliver ConnectTimerFires (emitAck false "join" JS.Null)) in
  settlements c = [Rejected (JS.new_Error (JS.Str "socket_connect_timeout"))]
  ∧ emitted c = [].
Proof.
  pose proof (emitAck_fails_when_not_connected "join" JS.Null []
                [Ack (ok_envelope JS.Null)] eq_refl)
    as (_ & _ & _ & _ & H).
  exact H.
Defined.

(** C9, as the claim states it, fails: an acknowledgment whose [ok] is the
    number 1 is not of the form [{ok: true, ...}], yet the call resolves with
    its [data]. *)
Lemma ack_with_ok_one_resolves :
  ok_is_true Samples.envelope_ok_one = false
  ∧ settlements
      (deliver (Ack Samples.envelope_ok_one) (emitAck true "join" (snd (join "g1"))))
    = [Resolved (JS.Str "stale")].
Proof. split; reflexivity. Qed.

(** C9, amended.  The acknowledgment callback tests [resp?.ok] for
    truthiness.  When the envelope is absent, or its [ok] is absent or falsy,
    the call is rejected, with the envelope's [error] when it has one and
    with ['error'] otherwise, and it is never resolved; when [ok] is truthy
    the call is resolved with the envelope's [data]. *)
Theorem emitAck_rejects_unless_ok_truthy con ev pl (sooner later : list Signal) resp :
  let c := deliver_all sooner (emitAck con ev pl) in
  stage c = AwaitAck → settled c = false →
  let c' := deliver_all later (deliver (Ack resp) c) in
  settlements c' =
    (if JS.truthy (JS.opt_get resp "ok")
     then [Resolved (JS.opt_get resp "data")]
     else [Rejected (JS.new_Error
             (JS.nullish_or (JS.opt_get resp "error") (JS.Str "error")))])
  ∧ (resp = JS.Null ∨ resp = JS.Undefined →
     settlements c' = [Rejected (JS.new_Error (JS.Str "error"))])
  ∧ (∀ error, JS.truthy (JS.opt_get resp "ok") = false →
       JS.opt_get resp "error" = JS.Str error →
       settlements c' = [Rejected (JS.new_Error (JS.Str error))])
  ∧ (∀ data, settlements c' = [Resolved data] →
       JS.truthy (JS.opt_get resp "ok") = true).
Proof.
  intros c Hst Hse c'.
  destruct (awaiting_ack_undecided sooner con ev pl Hst Hse) as [Hu _]; fold c in Hu.
  assert (Hc' : settlements c' = [ack_outcome resp])
    by (by apply (first_ack_decides ev)).
  rewrite Hc'. unfold ack_outcome.
  split; [by destruct (JS.truthy _)|].
  split; [by intros [-> | ->]|].
  split; [by intros error -> ->|].
  intros data. by destruct (JS.truthy _).
Qed.

Lemma emitAck_rejects_unless_ok_truthy_witness :
  settlements
    (deliver_all [AckTimerFires]
       (deliver (Ack JS.Null) (emitAck true "join" (snd (join "g1")))))
  = [Rejected (JS.new_Error (JS.Str "error"))].
Proof.
  pose proof (emitAck_rejects_unless_ok_truthy true "join" (snd (join "g1")) []
                [AckTimerFires] JS.Null eq_refl eq_refl)
    as (H & _).
  exact H.
Defined.

End SocketFacts.

(** ** The reconciliation controller *)
Module AppFacts.

Import TablutSocketService App Props.

Local Open Scope nat_scope.

Lemma events_cons e evs w : run (e :: evs) w = run evs (after e w).
Proof. reflexivity. Qed.

Lemma events_snoc evs e w : run (evs ++ [e]) w = after e (run evs w).
Proof. unfold run. by rewrite foldl_app. Qed.

Ltac open_world w :=
  let a := fresh "a" in
  let b := fresh "b" in
  destruct w as [a b]; destruct a; simpl in *.

(** Unfolds the handler behind one event and splits on every test it makes. *)
Ltac step_cases :=
  unfold after, step, onState, onMoveResult, onTurnNote, onBotThinking, onGameOver,
    bootstrapGame, startNewGame, onNewGameClick, onDifficultyChange, onSelectHumanSide,
    onCellClick, resume, startNewGame_resume, runAction_resume, runAction, pushLog;
  simpl; repeat (case_match; simplify_eq/=); simplify_eq/=.

Lemma same_square_eq p r c : same_square p r c = true ↔ p = mkPos r c.
Proof.
  destruct p as [pr pc]. unfold same_square; simpl.
  rewrite andb_true_iff, !Z.eqb_eq. split; [intros [-> ->]; done|]. by intros [= -> ->].
Qed.

Lemma existsb_same_square targets r c :
  existsb (fun p => same_square p r c) targets = true ↔ mkPos r c ∈ targets.
Proof.
  rewrite existsb_exists. split.
  - intros (p & Hin & Hp). apply same_square_eq in Hp. subst p. by apply list_elem_of_In.
  - intros Hin. exists (mkPos r c).
    split; [by apply list_elem_of_In|]. by apply same_square_eq.
Qed.

(** *** The wait for the bot's opening move *)

Lemma keeps_waiting_after e w :
  pendingNewGameWithBotOpening (app w) = true → keeps_waiting e →
  pendingNewGameWithBotOpening (app (after e w)) = true.
Proof.
  intros Hp [He Hg]. open_world w. subst.
  destruct e; simpl in *; try done; step_cases; try done; try congruence.
Qed.

Lemma keeps_waiting_run evs w :
  pendingNewGameWithBotOpening (app w) = true → Forall keeps_waiting evs →
  pendingNewGameWithBotOpening (app (run evs w)) = true.
Proof.
  intros Hp Hall. revert w Hp.
  induction Hall as [|e evs He _ IH]; intros w Hp; [done|].
  rewrite events_cons. apply IH. by apply keeps_waiting_after.
Qed.

Lemma ends_opening_after e w :
  pendingNewGameWithBotOpening (app w) = true → ends_opening e = true →
  let a := app (after e w) in
  pendingNewGameWithBotOpening a = false ∧ loading a = false ∧ setupSubmitting a = false.
Proof.
  intros Hp He. open_world w. subst.
  destruct e; simpl in *; try done; step_cases; try done.
  destruct active; done.
Qed.

(** C1. From a state in which the component waits for the bot's opening move
    ([pendingNewGameWithBotOpening] set, as [startNewGame] leaves it when the
    human side is DEFENDER, together with [loading] and [setupSubmitting]),
    the flag stays set until the first of: an accepted snapshot with
    [humanSide = DEFENDER] and a non-empty move history, or [bot:thinking]
    going inactive; that event clears the flag, [loading] and
    [setupSubmitting].  In particular a state push with [humanSide =
    DEFENDER] and one history entry leaves the flag and [loading] off, and
    in no state does the flag outlive such an event. *)
Theorem bot_opening_wait_ends (w : World) (waiting : list Event) (e : Event) :
  pendingNewGameWithBotOpening (app w) = true →
  Forall keeps_waiting waiting →
  ends_opening e = true →
  pendingNewGameWithBotOpening (app (run waiting w)) = true
  ∧ (let a := app (run (waiting ++ [e]) w) in
     pendingNewGameWithBotOpening a = false
     ∧ loading a = false ∧ setupSubmitting a = false)
  ∧ (∀ (st : TablutState) (w1 : World),
       humanSide st = DEFENDER → length (moveHistory st) = 1 →
       let a := app (after (StatePush st) w1) in
       pendingNewGameWithBotOpening a = false ∧ loading a = false)
  ∧ (∀ w0 : World,
       setupHumanSide (app w0) = DEFENDER →
       let a := app (after StartNewGame w0) in
       pendingNewGameWithBotOpening a = true
       ∧ loading a = true ∧ setupSubmitting a = true)
  ∧ (∀ (e1 : Event) (w1 : World),
       ends_opening e1 = true →
       pendingNewGameWithBotOpening (app (after e1 w1)) = false).
Proof.
  intros Hp Hwait He.
  pose proof (keeps_waiting_run waiting w Hp Hwait) as Hp'.
  split; [done|].
  split; [rewrite events_snoc; by apply ends_opening_after|].
  split; [|split].
  - intros st w1 Hside Hlen. open_world w1.
    unfold after, step, onState, botAlreadyOpened; simpl.
    rewrite Hside, Hlen; simpl.
    repeat (case_match; simplify_eq/=); done.
  - intros w0 Hside. open_world w0. subst. done.
  - intros e1 w1 He1. open_world w1.
    destruct e1; simpl in *; try done; step_cases; done.
Qed.

Lemma bot_opening_wait_ends_witness :
  let a :=
    app (run ([Settles (AwaitNewGame true) (Fulfilled Samples.snapshot_unopened);
               StatePush Samples.snapshot_unopened;
               BotThinkingPush true] ++ [StatePush Samples.snapshot_opened])
           (after StartNewGame (mkWorld init Samples.browser_plain))) in
  pendingNewGameWithBotOpening a = false ∧ loading a = false ∧ setupSubmitting a = false.
Proof.
  assert (Hwait : Forall keeps_waiting
            [Settles (AwaitNewGame true) (Fulfilled Samples.snapshot_unopened);
             StatePush Samples.snapshot_unopened;
             BotThinkingPush true])
    by (repeat constructor).
  pose proof (bot_opening_wait_ends
                (after StartNewGame (mkWorld init Samples.browser_plain))
                _ (StatePush Samples.snapshot_opened) eq_refl Hwait eq_refl)
    as (_ & H & _).
  exact H.
Defined.

(** *** What accepting a snapshot does *)

(** C2, as the claim states it, fails: when the browser refuses access to
    local storage the accepted snapshot's identifier reaches the URL but not
    local storage. *)
Lemma refused_storage_keeps_no_identifier :
  let w := after (StatePush Samples.snapshot_opened)
             (mkWorld init Samples.browser_no_storage) in
  search_g (browser w) = Some "g1" ∧ storage (browser w) !! LS_KEY = None.
Proof. split; reflexivity. Qed.

(** C2, amended.  Every accepted snapshot, whether or not the game identifier
    changed, becomes the held state, empties the message, clears
    [selectedFrom] and writes its identifier to the [g] parameter of the URL;
    the write to local storage is attempted and takes effect unless local
    storage throws, in which case it is left as it was.  [loading] is on
    afterwards exactly when the component still waits for the bot's opening
    move (the flag was set and this snapshot does not show the opening), and
    [setupSubmitting] is off unless that wait keeps it as it was. *)
Theorem snapshot_accepted (st : TablutState) (w : World) :
  let w' := after (StatePush st) w in
  let still_waiting :=
    pendingNewGameWithBotOpening (app w) && negb (botAlreadyOpened st) in
  state (app w') = Some st
  ∧ message (app w') = ""
  ∧ selectedFrom (app w') = None
  ∧ search_g (browser w') = Some (id st)
  ∧ storage (browser w') =
      (if storage_denied (browser w) then storage (browser w)
       else <[LS_KEY := id st]> (storage (browser w)))
  ∧ (storage_denied (browser w) = false →
     storage (browser w') !! LS_KEY = Some (id st))
  ∧ loading (app w') = still_waiting
  ∧ setupSubmitting (app w') = still_waiting && setupSubmitting (app w).
Proof.
  destruct w as [a [g denied items]]; destruct a; simpl.
  unfold after, step, onState, writeGameIdToLocalStorage, setItem; simpl.
  repeat (case_match; simplify_eq/=);
    repeat split; try done; intros; by rewrite ?lookup_insert_eq.
Qed.

(** *** The move log *)

Lemma take_cons_take {X} (x : X) (l : list X) :
  take 40 (x :: take 40 l) = take 40 (x :: l).
Proof. simpl. f_equal. rewrite take_take. f_equal. Qed.

Lemma pushLog_chronicle now msg a lines :
  logs a = take 40 (reverse lines) →
  logs (pushLog now msg a) = take 40 (reverse (lines ++ [stamp now msg])).
Proof.
  intros Hl. unfold pushLog. destruct a; unfold set_logs; cbn [logs] in *.
  rewrite Hl, reverse_snoc. apply take_cons_take.
Qed.

(** The log is the chronicle, newest first, cut at 40 lines. *)
Lemma logs_follow_chronicle evs w lines :
  logs (app w) = take 40 (reverse lines) →
  logs (app (run evs w)) = take 40 (reverse (chronicle evs w lines)).
Proof.
  revert w lines. induction evs as [|e evs IH]; intros w lines Hl; [done|].
  rewrite events_cons. simpl. apply IH. clear IH.
  destruct e; simpl;
    try (by apply pushLog_chronicle);
    destruct w as [a b]; destruct a; simpl in *; step_cases; done.
Qed.

Lemma chronicle_lines evs w lines :
  Forall (fun line => stamped line ∨ from_history line) lines →
  Forall (fun line => stamped line ∨ from_history line) (chronicle evs w lines).
Proof.
  revert w lines. induction evs as [|e evs IH]; intros w lines Hl; [done|].
  simpl. apply IH. clear IH.
  destruct e; simpl; try done;
    try (apply Forall_app; split; [done|]; apply Forall_singleton; left; by eexists _, _).
  destruct (gameChanged _ _); [|done].
  apply Forall_fmap, Forall_forall. intros mv _. right. by exists mv.
Qed.

(** C3, as the claim states it, fails: the lines rebuilt from a snapshot's
    move history carry the turn number and no time stamp. *)
Lemma history_line_has_no_time_stamp :
  logs (app (run [StatePush Samples.snapshot_opened]
               (mkWorld init Samples.browser_plain)))
  = ["#1 Atacante: (0,3) -> (2,3)"]
  ∧ ¬ stamped "#1 Atacante: (0,3) -> (2,3)".
Proof.
  split; [reflexivity|].
  intros (now & msg & H). unfold stamp in H. simpl in H. discriminate H.
Qed.

(** C3, amended.  Over every sequence of events from the initial state the
    log holds the lines produced since it was last emptied or rebuilt, newest
    first and cut at 40, so it never exceeds 40 entries.  Each entry is
    either a line pushed by a notification handler, which is time stamped, or
    a line rebuilt from the move history, which shows the turn number and no
    time.  An accepted snapshot replaces the whole log by the lines of its
    move history when its identifier differs from the remembered one and
    leaves the log alone otherwise; a push handler puts its line in front. *)
Theorem logs_newest_first_capped (evs : list Event) (b : Browser) :
  let w0 := mkWorld init b in
  let w := run evs w0 in
  logs (app w) = take 40 (reverse (chronicle evs w0 []))
  ∧ length (logs (app w)) ≤ 40
  ∧ Forall (fun line => stamped line ∨ from_history line) (logs (app w))
  ∧ (∀ st, logs (app (after (StatePush st) w)) =
           if gameChanged (app w) st
           then take 40 (reverse (map historyLine (moveHistory st)))
           else logs (app w))
  ∧ (∀ now mv, logs (app (after (MoveResultPush now mv) w)) =
               take 40 (stamp now (moveResultText mv) :: logs (app w)))
  ∧ (∀ now msg, logs (app (after (TurnNotePush now msg) w)) =
                take 40 (stamp now msg :: logs (app w)))
  ∧ (∀ now winner, logs (app (after (GameOverPush now winner) w)) =
                   take 40 (stamp now ("Fin de partida. Ganador: " +:+ sideLabel winner)
                              :: logs (app w))).
Proof.
  intros w0 w.
  assert (Hlogs : logs (app w) = take 40 (reverse (chronicle evs w0 [])))
    by (by apply logs_follow_chronicle).
  split; [done|].
  split; [rewrite Hlogs, length_take; lia|].
  split.
  { rewrite Hlogs. apply Forall_take, Forall_reverse, chronicle_lines. constructor. }
  split.
  { intros st. destruct w as [a b']. unfold after, step, onState; simpl.
    destruct (gameChanged a st); destruct a; simpl;
      repeat (case_match; simplify_eq/=); done. }
  repeat split; intros; destruct w as [a b']; destruct a; done.
Qed.

(** *** Board clicks *)

Lemma selection_sound_after e w :
  selection_sound (app w) → selection_sound (app (after e w)).
Proof.
  unfold selection_sound. intros Hs. open_world w.
  destruct e; simpl in *;
    try (step_cases; unfold humanTurn in *; simpl in *; tauto).
  (* CellClick: the state is untouched and a selection is only set past the
     turn test. *)
  unfold after, step, onCellClick, runAction, humanTurn in *; simpl in *.
  destruct state0 as [st|]; simpl; [|tauto].
  destruct (bool_decide (sideToMove st = humanSide st)
            && bool_decide (phase st = IN_PROGRESS)) eqn:Hturn; simpl.
  - repeat (case_match; simplify_eq/=); rewrite ?Hturn; auto.
  - destruct Hs as [Hs | Hs]; [by left | discriminate Hs].
Qed.

Lemma selection_sound_run evs w :
  selection_sound (app w) → selection_sound (app (run evs w)).
Proof.
  revert w. induction evs as [|e evs IH]; intros w Hs; [done|].
  rewrite events_cons. by apply IH, selection_sound_after.
Qed.

(** C4. A click while it is not the human's turn (no state held,
    [sideToMove] differs from [humanSide], or the phase is not IN_PROGRESS)
    leaves the component as it is and issues no request.  In every state the
    component can reach, while a selection is held a snapshot is held and it
    is the human's turn, and a click on the destination of a legal move
    listed for the selected origin clears the selection at once, turns
    [loading] on and issues [move:play] with the held game identifier, the
    origin and the clicked square, all in the handler's own turn, before the
    request settles.  The destination of a move is another square than its
    origin; a click on the selected origin itself is the deselecting rule of
    the state machine: it clears the selection and issues nothing. *)
Theorem cell_click_plays_selected_move (evs : list Event) (b : Browser) (r c : Z) :
  let w := run evs (mkWorld init b) in
  let a := app w in
  (∀ w1 : World,
     (state (app w1) = None
      ∨ ∃ st, state (app w1) = Some st
              ∧ (sideToMove st ≠ humanSide st ∨ phase st ≠ IN_PROGRESS)) →
     step (CellClick r c) w1 = (w1, []))
  ∧ (∀ from : Pos,
       selectedFrom a = Some from →
       ∃ st, state a = Some st
         ∧ sideToMove st = humanSide st ∧ phase st = IN_PROGRESS
         ∧ (∀ m : TablutMove,
              m ∈ legalMoves st → mv_from m = from → mv_to m = mkPos r c →
              mv_to m ≠ mv_from m →
              step (CellClick r c) w =
                (mkWorld
                   (mkApp (state a) true (message a) (logs a) (setupOpen a)
                      (setupSubmitting a) (setupHumanSide a) (setupDifficulty a)
                      None (currentStateGameId a) (pendingNewGameWithBotOpening a))
                   (browser w),
                 [("move:play",
                   JS.Obj [("gameId", JS.Str (id st));
                           ("from", JS.Obj [("row", JS.Num (row from));
                                            ("col", JS.Num (col from))]);
                           ("to", JS.Obj [("row", JS.Num r); ("col", JS.Num c)])])]))
         ∧ step (CellClick (row from) (col from)) w =
             (mkWorld
                (mkApp (state a) (loading a) (message a) (logs a) (setupOpen a)
                   (setupSubmitting a) (setupHumanSide a) (setupDifficulty a)
                   None (currentStateGameId a) (pendingNewGameWithBotOpening a))
                (browser w),
              [])).
Proof.
  intros w a. split.
  - intros [a1 b1] Hoff. unfold step, onCellClick; cbn [app browser] in *.
    destruct (state a1) as [st1|] eqn:Hst1; [|done].
    destruct Hoff as [Hnone | (st & [= <-] & Hoff)]; [done|].
    unfold humanTurn. rewrite Hst1.
    destruct Hoff as [Hside | Hphase].
    + by rewrite (bool_decide_eq_false_2 _ Hside).
    + rewrite (bool_decide_eq_false_2 _ Hphase). by rewrite andb_false_r.
  - intros from Hsel.
    assert (Hturn : humanTurn a = true).
    { destruct (selection_sound_run evs (mkWorld init b)) as [Hnone | Ht];
        [by left| |done].
      fold w in Hnone. fold a in Hnone. congruence. }
    assert (Hself : same_square from (row from) (col from) = true).
    { apply same_square_eq. by destruct from. }
    pose proof Hturn as Hturn'. unfold humanTurn in Hturn'.
    destruct (state a) as [st|] eqn:Hst; [|done].
    exists st. split; [done|].
    apply andb_true_iff in Hturn' as [Hside Hphase].
    apply bool_decide_eq_true in Hside, Hphase.
    split; [done|]. split; [done|]. split.
    + intros m Hin Hfrom Hto Hne.
      assert (Hnot : same_square from r c = false).
      { apply not_true_is_false. intros H. apply same_square_eq in H.
        apply Hne. by rewrite Hto, Hfrom. }
      assert (Htarget : existsb (fun p => same_square p r c) (selectedTargets a) = true).
      { apply existsb_same_square. unfold selectedTargets. rewrite Hst, Hsel.
        apply list_elem_of_fmap. exists m. split; [done|].
        apply list_elem_of_In, filter_In. split; [by apply list_elem_of_In|].
        by rewrite Hfrom. }
      unfold step, onCellClick, runAction. fold a. rewrite Hst, Hturn, Hsel. simpl.
      rewrite Hnot, Htarget. clearbody a. destruct a; simpl in *; by subst.
    + unfold step, onCellClick. fold a. rewrite Hst, Hturn, Hsel. simpl.
      rewrite Hself. clearbody a. destruct a; simpl in *; by subst.
Qed.

Lemma cell_click_plays_selected_move_witness :
  step (CellClick 4 4)
    (run [StatePush Samples.snapshot_attacker; CellClick 3 4]
       (mkWorld init Samples.browser_plain))
  = (mkWorld
       (mkApp (Some Samples.snapshot_attacker) true "" [] false false DEFENDER Diff4
          None (Some "g2") false)
       (mkBrowser (Some "g2") false (<[LS_KEY := "g2"]> ∅)),
     [("move:play",
       JS.Obj [("gameId", JS.Str "g2");
               ("from", JS.Obj [("row", JS.Num 3); ("col", JS.Num 4)]);
               ("to", JS.Obj [("row", JS.Num 4); ("col", JS.Num 4)])])]).
Proof.
  pose proof (cell_click_plays_selected_move
                [StatePush Samples.snapshot_attacker; CellClick 3 4]
                Samples.browser_plain 4 4)
    as (_ & Hplay).
  destruct (Hplay (mkPos 3 4) eq_refl) as (st & Hst & _ & _ & Hmove & _).
  injection Hst as <-.
  assert (Hne : mkPos 4 4 ≠ mkPos 3 4) by discriminate.
  exact (Hmove (mkMove (mkPos 3 4) (mkPos 4 4) []) (list_elem_of_here _ _)
           eq_refl eq_refl Hne).
Defined.

(** *** Where the held state comes from *)

(** C5, as the claim states it, fails: the [join] call started at bootstrap
    resolves with a snapshot and the component keeps holding no state. *)
Lemma resolved_join_is_not_adopted :
  let w := run [Bootstrap] (mkWorld init Samples.browser_with_link) in
  snd (step Bootstrap (mkWorld init Samples.browser_with_link)) = [join "g1"]
  ∧ state (app (after (Settles AwaitJoin (Fulfilled Samples.snapshot_opened)) w)) = None.
Proof. split; reflexivity. Qed.

(** C5, amended.  The held state is written in two places only: a [state]
    push notification swaps the pushed snapshot in whole, and [startNewGame]
    resets it to none.  Every other event leaves it as it was; in particular
    the snapshot a [join], [game:new], [game:change:diff] or [move:play] call
    resolves with is discarded. *)
Theorem held_state_sources (e : Event) (w : World) :
  state (app (after e w)) =
    match e with
    | StatePush st => Some st
    | StartNewGame => None
    | _ => state (app w)
    end.
Proof.
  open_world w. destruct e; step_cases; done.
Qed.

(** *** Failure paths *)

(** C8, as the claim states it, fails: the user opens the setup prompt and
    starts a new game with the bot opening while the [join] of the bootstrap
    is still in flight; when the [join] then fails, [setupSubmitting] stays
    on. *)
Lemma failed_join_leaves_submitting_on :
  let w := run [Bootstrap; NewGameClick; StartNewGame]
             (mkWorld init Samples.browser_with_link) in
  let w' :=
    after (Settles AwaitJoin (Failed (JS.new_Error (JS.Str "ack_timeout:join")))) w in
  setupSubmitting (app w) = true
  ∧ setupSubmitting (app w') = true
  ∧ loading (app w') = false.
Proof. repeat split. Qed.

(** C8, amended.  Whatever call fails, its failure path sets the message
    built from the error and turns [loading] off.  The failure path of
    [game:new] also turns [setupSubmitting] and the pending-bot-opening flag
    off and reopens the setup prompt; the failure path of [join], of the
    difficulty change and of a move leaves those three as they were. *)
Theorem failure_paths (k : Awaiting) (err : JS.value) (w : World) :
  let a := app w in
  let a' := app (after (Settles k (Failed err)) w) in
  loading a' = false
  ∧ message a' = failureText (errorMessage_of k) err
  ∧ match k with
    | AwaitNewGame _ =>
        setupSubmitting a' = false
        ∧ pendingNewGameWithBotOpening a' = false
        ∧ setupOpen a' = true
    | _ =>
        setupSubmitting a' = setupSubmitting a
        ∧ pendingNewGameWithBotOpening a' = pendingNewGameWithBotOpening a
        ∧ setupOpen a' = setupOpen a
    end.
Proof.
  open_world w. destruct k; done.
Qed.

(** *** Starting a new game *)

Lemma no_push_keeps_identifier_unset e w :
  is_state_push e = false →
  currentStateGameId (app w) = None →
  currentStateGameId (app (after e w)) = None.
Proof.
  intros He Hid. open_world w. subst.
  destruct e; simpl in *; try done; step_cases; done.
Qed.

Lemma no_push_run_keeps_identifier_unset evs w :
  Forall (fun e => is_state_push e = false) evs →
  currentStateGameId (app w) = None →
  currentStateGameId (app (run evs w)) = None.
Proof.
  intros Hall. revert w.
  induction Hall as [|e evs He _ IH]; intros w Hid; [done|].
  rewrite events_cons. by apply IH, no_push_keeps_identifier_unset.
Qed.

(** C10. [startNewGame] empties the held state, the log, the selection and
    the remembered game identifier in the same turn in which it hands the
    [game:new] request, with the chosen side and difficulty, to the service.
    Whatever happens afterwards short of a snapshot, the remembered
    identifier stays unset, so the first snapshot then accepted differs from
    it, is classified as a game change, and the log becomes exactly the
    lines of that snapshot's move history: one line per record, newest
    first, cut at 40. *)
Theorem new_game_rebuilds_log (w : World) (evs : list Event) (st : TablutState) :
  Forall (fun e => is_state_push e = false) evs →
  let w1 := after StartNewGame w in
  let w2 := run evs w1 in
  (state (app w1) = None ∧ logs (app w1) = [] ∧ selectedFrom (app w1) = None
   ∧ currentStateGameId (app w1) = None
   ∧ snd (step StartNewGame w) =
       [("game:new",
         JS.Obj [("humanSide",
                  JS.Str (match setupHumanSide (app w) with
                          | ATTACKER => "ATTACKER"
                          | DEFENDER => "DEFENDER"
                          end));
                 ("difficulty",
                  JS.Num (match setupDifficulty (app w) with
                          | Diff2 => 2
                          | Diff4 => 4
                          end))])])
  ∧ currentStateGameId (app w2) = None
  ∧ currentStateGameId (app w2) ≠ Some (id st)
  ∧ gameChanged (app w2) st = true
  ∧ logs (app (after (StatePush st) w2)) =
      take 40 (reverse (map historyLine (moveHistory st)))
  ∧ length (logs (app (after (StatePush st) w2))) = length (moveHistory st) `min` 40.
Proof.
  intros Hall w1 w2.
  assert (Hid : currentStateGameId (app w2) = None).
  { apply no_push_run_keeps_identifier_unset; [done|]. by destruct w as [[] ?]. }
  split; [by destruct w as [[] ?]|].
  assert (Hch : gameChanged (app w2) st = true)
    by (unfold gameChanged; by rewrite Hid).
  split; [done|]. split; [by rewrite Hid|]. split; [done|].
  assert (Hlogs : logs (app (after (StatePush st) w2)) =
                  take 40 (reverse (map historyLine (moveHistory st)))).
  { destruct w2 as [a2 b2]; simpl in *.
    unfold after, step, onState; simpl. rewrite Hch.
    destruct a2; simpl; repeat (case_match; simplify_eq/=); done. }
  split; [done|].
  rewrite Hlogs, length_take, length_reverse, length_map. lia.
Qed.

Lemma new_game_rebuilds_log_witness :
  logs (app (after (StatePush Samples.snapshot_opened)
               (run [TurnNotePush Samples.noon "Turno del atacante";
                     Settles (AwaitNewGame true) (Fulfilled Samples.snapshot_opened)]
                  (after StartNewGame
                     (run [StatePush Samples.snapshot_opened]
                        (mkWorld init Samples.browser_plain))))))
  = ["#1 Atacante: (0,3) -> (2,3)"].
Proof.
  assert (Hall : Forall (fun e => is_state_push e = false)
                   [TurnNotePush Samples.noon "Turno del atacante";
                    Settles (AwaitNewGame true) (Fulfilled Samples.snapshot_opened)])
    by (repeat constructor).
  pose proof (new_game_rebuilds_log
                (run [StatePush Samples.snapshot_opened]
                   (mkWorld init Samples.browser_plain))
                _ Samples.snapshot_opened Hall)
    as (_ & _ & _ & _ & H & _).
  exact H.
Defined.

End AppFacts.

(** ** More on the transport: the request, the timers, the payloads *)
Module SocketMore.

Import TablutSocketService Props Invariants SocketFacts.

Local Open Scope nat_scope.

Lemma emitAck_call_shape con ev pl : call_shape con ev pl (emitAck con ev pl).
Proof. destruct con; repeat split. Qed.

Lemma call_shape_deliver con ev pl sig c :
  call_shape con ev pl c → call_shape con ev pl (deliver sig c).
Proof.
  intros (He & Hp & Hr & Hst).
  destruct c as [ev' pl' stg cn req lis ctm stl atm em ss].
  simpl in *; subst ev' pl' req.
  destruct stg.
  - destruct Hst as (-> & -> & -> & -> & -> & ->).
    destruct sig; simpl; repeat split; eauto.
  - destruct Hst as (-> & -> & -> & -> & Hs).
    destruct stl; destruct Hs as [-> Hs]; destruct sig; simpl; repeat split; eauto.
    all: try (subst ss; done).
  - destruct Hst as (-> & -> & -> & -> & -> & Herr).
    destruct sig; simpl; repeat split; eauto.
Qed.

Lemma call_shape_reachable sigs con ev pl :
  call_shape con ev pl (deliver_all sigs (emitAck con ev pl)).
Proof.
  induction sigs as [|sig sigs IH] using rev_ind.
  - apply emitAck_call_shape.
  - rewrite signals_snoc. by apply call_shape_deliver.
Qed.

(** X1. Whatever reaches an [emitAck] call, it hands the socket at most one
    request, the event and payload it was called with, and it has done so
    exactly when it is past [ensureConnected]; it is never resolved without
    having sent the request, and never sends on a socket that is not
    connected. *)
Theorem emitAck_emits_request_once (sigs : list Signal) con ev pl :
  let c := deliver_all sigs (emitAck con ev pl) in
  emitted c = match stage c with AwaitAck => [(ev, pl)] | _ => [] end
  ∧ (∀ data, Resolved data ∈ settlements c → emitted c = [(ev, pl)])
  ∧ (emitted c = [(ev, pl)] → connected c = true).
Proof.
  intros c. destruct (call_shape_reachable sigs con ev pl) as (_ & _ & _ & Hst).
  fold c in Hst. destruct (stage c) eqn:Hstage; simpl.
  - destruct Hst as (He & Hs & _). rewrite He, Hs. repeat split; try done.
    intros data Hin. by apply elem_of_nil in Hin.
  - destruct Hst as (He & Hc & _). rewrite He. done.
  - destruct Hst as (He & _ & _ & _ & _ & err & Hs). rewrite He, Hs.
    repeat split; try done. intros data Hin. apply list_elem_of_singleton in Hin. done.
Qed.

(** X2. An [emitAck] call asks the socket to connect only when it found it
    disconnected.  While nothing is settled exactly one timer is armed (5 s
    with both connection listeners while connecting, 20 s afterwards); once
    the promise is settled no timer is armed and no listener is left on the
    socket. *)
Theorem emitAck_releases_timers (sigs : list Signal) con ev pl :
  let c := deliver_all sigs (emitAck con ev pl) in
  connect_requested c = negb con
  ∧ (connect_timer c, ack_timer c, connect_listeners c) =
      match settlements c, stage c with
      | [], AwaitConnect => (Some 5000%Z, None, true)
      | [], _ => (None, Some 20000%Z, false)
      | _ :: _, _ => (None, None, false)
      end.
Proof.
  intros c. destruct (call_shape_reachable sigs con ev pl) as (_ & _ & Hr & Hst).
  fold c in Hst, Hr. split; [done|].
  destruct (stage c) eqn:Hstage.
  - destruct Hst as (_ & -> & _ & -> & -> & ->). done.
  - destruct Hst as (_ & _ & -> & -> & Hs).
    destruct (settled c); destruct Hs as [-> Hs].
    + destruct (settlements c); [done|done].
    + by rewrite Hs.
  - destruct Hst as (_ & _ & -> & -> & -> & err & ->). done.
Qed.

(** X3. The four request wrappers name their event and put each argument
    under its own key, so that the payload gives every argument back; the
    optional game identifier of [gameNew] is left out of the payload when it
    is absent or the empty string. *)
Theorem request_payloads_read_back :
  (∀ g, fst (join g) = "join" ∧ JS.opt_get (snd (join g)) "gameId" = JS.Str g)
  ∧ (∀ g d, fst (changeDifficulty g d) = "game:change:diff"
            ∧ JS.opt_get (snd (changeDifficulty g d)) "gameId" = JS.Str g
            ∧ JS.opt_get (snd (changeDifficulty g d)) "difficulty" = difficulty_value d)
  ∧ (∀ g from to,
       let pl := snd (playMove g from to) in
       fst (playMove g from to) = "move:play"
       ∧ JS.opt_get pl "gameId" = JS.Str g
       ∧ JS.opt_get (JS.opt_get pl "from") "row" = JS.Num (row from)
       ∧ JS.opt_get (JS.opt_get pl "from") "col" = JS.Num (col from)
       ∧ JS.opt_get (JS.opt_get pl "to") "row" = JS.Num (row to)
       ∧ JS.opt_get (JS.opt_get pl "to") "col" = JS.Num (col to))
  ∧ (∀ s d g,
       let pl := snd (gameNew s d g) in
       fst (gameNew s d g) = "game:new"
       ∧ JS.opt_get pl "humanSide" = side_value s
       ∧ JS.opt_get pl "difficulty" = difficulty_value d
       ∧ JS.opt_get pl "gameId" =
           match g with
           | Some g' => if String.eqb g' "" then JS.Undefined else JS.Str g'
           | None => JS.Undefined
           end).
Proof.
  repeat split; try done;
    destruct g as [g'|]; simpl; try done; by destruct (String.eqb g' "").
Qed.

End SocketMore.

(** ** [String.prototype.trim] *)
Module TrimFacts.

Local Open Scope nat_scope.

Lemma strip_space_shorter s r : JS.strip_space s = Some r → String.length r < String.length s.
Proof.
  destruct s as [|c1 [|c2 [|c3 r3]]]; simpl; repeat case_match; intros; simplify_eq/=; lia.
Qed.

Lemma trim_start_fuel_enough n m s :
  String.length s ≤ n → String.length s ≤ m →
  JS.trim_start_fuel n s = JS.trim_start_fuel m s.
Proof.
  revert m s. induction n as [|n IH]; intros m s Hn Hm.
  - destruct s; [|simpl in Hn; lia]. by destruct m.
  - destruct m as [|m].
    + destruct s; [done|simpl in Hm; lia].
    + simpl. destruct (JS.strip_space s) as [r|] eqn:Hr; [|done].
      apply strip_space_shorter in Hr. apply IH; lia.
Qed.

Lemma trim_start_unfold s :
  JS.trim_start s = match JS.strip_space s with Some r => JS.trim_start r | None => s end.
Proof.
  unfold JS.trim_start. destruct s as [|c s]; [done|].
  change (String.length (String c s)) with (S (String.length s)).
  cbn [JS.trim_start_fuel].
  destruct (JS.strip_space (String c s)) as [r|] eqn:Hr; [|done].
  apply strip_space_shorter in Hr. simpl in Hr. apply trim_start_fuel_enough; lia.
Qed.

Lemma strip_space_trim_start s : JS.strip_space (JS.trim_start s) = None.
Proof.
  remember (String.length s) as n eqn:Hn. revert s Hn.
  induction n as [n IH] using lt_wf_ind. intros s ->.
  rewrite trim_start_unfold. destruct (JS.strip_space s) as [r|] eqn:Hr; [|done].
  apply (IH (String.length r)); [by apply strip_space_shorter|done].
Qed.

Lemma trim_start_fixed s : JS.strip_space s = None → JS.trim_start s = s.
Proof. intros H. by rewrite trim_start_unfold, H. Qed.

Lemma strip_space_app s r w :
  JS.strip_space s = Some r → JS.strip_space (s +:+ w) = Some (r +:+ w).
Proof.
  destruct s as [|c1 [|c2 [|c3 r3]]]; simpl; repeat case_match; intros; simplify_eq/=; done.
Qed.

Lemma all_space_app a w :
  JS.trim_start a = "" → JS.trim_start w = "" → JS.trim_start (a +:+ w) = "".
Proof.
  remember (String.length a) as n eqn:Hn. revert a Hn.
  induction n as [n IH] using lt_wf_ind. intros a -> Ha Hw.
  rewrite trim_start_unfold in Ha.
  destruct (JS.strip_space a) as [r|] eqn:Hr.
  - rewrite trim_start_unfold, (strip_space_app a r w Hr).
    apply (IH (String.length r)); [by apply strip_space_shorter|done..].
  - by subst a.
Qed.

Lemma trim_end_split s : ∃ w, s = JS.trim_end s +:+ w ∧ JS.trim_start w = "".
Proof.
  induction s as [|c s (w & Hs & Hw)]; [by exists ""|].
  cbn [JS.trim_end]. destruct (String.eqb (JS.trim_start (String c s)) "") eqn:Hall.
  - exists (String c s). split; [done|]. by apply String.eqb_eq.
  - exists w. split; [|done].
    change (String c (JS.trim_end s) +:+ w) with (String c (JS.trim_end s +:+ w)).
    by rewrite <- Hs.
Qed.

Lemma trim_end_idem s : JS.trim_end (JS.trim_end s) = JS.trim_end s.
Proof.
  induction s as [|c s IH]; [done|].
  cbn [JS.trim_end]. destruct (String.eqb (JS.trim_start (String c s)) "") eqn:Hall; [done|].
  cbn [JS.trim_end]. rewrite IH.
  destruct (String.eqb (JS.trim_start (String c (JS.trim_end s))) "") eqn:Hall'; [|done].
  exfalso. apply String.eqb_eq in Hall'. apply String.eqb_neq in Hall. apply Hall.
  destruct (trim_end_split s) as (w & Hs & Hw).
  assert (Heq : String c s = String c (JS.trim_end s) +:+ w)
    by (change (String c (JS.trim_end s) +:+ w) with (String c (JS.trim_end s +:+ w));
        by rewrite <- Hs).
  rewrite Heq. by apply all_space_app.
Qed.

Lemma strip_space_trim_end s : JS.strip_space s = None → JS.strip_space (JS.trim_end s) = None.
Proof.
  intros Hs. destruct (JS.strip_space (JS.trim_end s)) as [r|] eqn:Hr; [|done].
  destruct (trim_end_split s) as (w & Hsplit & _).
  apply (strip_space_app _ _ w) in Hr. rewrite <- Hsplit in Hr. congruence.
Qed.

Lemma trim_idem s : JS.trim (JS.trim s) = JS.trim s.
Proof.
  unfold JS.trim.
  rewrite (trim_start_fixed (JS.trim_end (JS.trim_start s))).
  - apply trim_end_idem.
  - apply strip_space_trim_end, strip_space_trim_start.
Qed.

End TrimFacts.

(** ** The client session identifier *)
Module SessionFacts.

Import App ClientSession.

Lemma prefix_app s t : String.prefix s (s +:+ t) = true.
Proof.
  induction s as [|a s IH].
  - by destruct t.
  - change (String a s +:+ t) with (String a (s +:+ t)). simpl.
    by destruct (ascii_dec a a).
Qed.

(** A string that starts with [sid] is not blank. *)
Lemma trim_sid_not_blank s : JS.trim (String "s" (String "i" (String "d" s))) ≠ "".
Proof.
  unfold JS.trim. rewrite TrimFacts.trim_start_fixed by done.
  cbn [JS.trim_end]. by rewrite TrimFacts.trim_start_fixed by done.
Qed.

(** X4. Without [crypto.randomUUID] the generated session identifier starts
    with [sid_], so it is never blank, whatever the clock and the random
    number are. *)
Theorem fallback_session_id_not_blank (e : Entropy) :
  randomUUID e = None →
  String.prefix "sid_" (generateSessionId e) = true
  ∧ JS.trim (generateSessionId e) ≠ "".
Proof.
  intros Hno. unfold generateSessionId. rewrite Hno.
  split; [apply prefix_app|].
  change ("sid_" +:+ ?x) with (String "s" (String "i" (String "d" ("_" +:+ x)))).
  apply trim_sid_not_blank.
Qed.

Lemma fallback_session_id_not_blank_witness :
  String.prefix "sid_" (generateSessionId (mkEntropy None 1700000000000 "0.4fzyo82mvyr")) = true
  ∧ JS.trim (generateSessionId (mkEntropy None 1700000000000 "0.4fzyo82mvyr")) ≠ "".
Proof.
  exact (fallback_session_id_not_blank (mkEntropy None 1700000000000 "0.4fzyo82mvyr")
           eq_refl).
Defined.

(** X5. With a local storage that works and a generator that yields a
    non-blank identifier, [getClientSessionId] is stable: a second call
    returns the identifier of the first and leaves the storage as the first
    left it, whatever the generator would yield by then.  The identifier is
    stored under the session key and no other key is touched. *)
Theorem session_id_stable (e1 e2 e3 e4 : Entropy) (b : Browser) :
  storage_denied b = false →
  JS.trim (generateSessionId e1) ≠ "" →
  let first := getClientSessionId e1 e2 b in
  getClientSessionId e3 e4 (snd first) = first
  ∧ storage (snd first) !! CLIENT_SESSION_LS_KEY = Some (fst first)
  ∧ (∀ k, k ≠ CLIENT_SESSION_LS_KEY → storage (snd first) !! k = storage b !! k).
Proof.
  intros Hok Hfresh.
  assert (Hne : generateSessionId e1 ≠ "") by (intros H; by rewrite H in Hfresh).
  apply String.eqb_neq in Hne. apply String.eqb_neq in Hfresh.
  destruct b as [g denied items]; simpl in *; subst denied.
  unfold getClientSessionId, getItem, setItem; simpl.
  destruct (items !! CLIENT_SESSION_LS_KEY) as [old|] eqn:Hold; simpl.
  - destruct (negb (String.eqb old "") && negb (String.eqb (JS.trim old) "")) eqn:Hvalid;
      simpl.
    + rewrite Hold, Hvalid. done.
    + rewrite lookup_insert_eq, Hne, Hfresh. simpl.
      repeat split; try done. intros k Hk. by rewrite lookup_insert_ne.
  - rewrite lookup_insert_eq, Hne, Hfresh. simpl.
    repeat split; try done. intros k Hk. by rewrite lookup_insert_ne.
Qed.

Lemma session_id_stable_witness :
  getClientSessionId
    (mkEntropy (Some "second") 0 "") (mkEntropy None 0 "")
    (snd (getClientSessionId (mkEntropy (Some "first") 0 "") (mkEntropy None 0 "")
            Samples.browser_plain))
  = getClientSessionId (mkEntropy (Some "first") 0 "") (mkEntropy None 0 "")
      Samples.browser_plain.
Proof.
  assert (Hfresh : JS.trim (generateSessionId (mkEntropy (Some "first") 0 "")) ≠ "")
    by discriminate.
  pose proof (session_id_stable
                (mkEntropy (Some "first") 0 "") (mkEntropy None 0 "")
                (mkEntropy (Some "second") 0 "") (mkEntropy None 0 "")
                Samples.browser_plain eq_refl Hfresh)
    as (H & _).
  exact H.
Defined.

End SessionFacts.

(** ** More on the controller: invariants, identity, clicks, messages *)
Module AppMore.

Import TablutSocketService App Props Invariants AppFacts AppView.

Local Open Scope nat_scope.

(** The snapshot handler in closed form. *)
Lemma onState_closed_form st a b :
  let waiting := pendingNewGameWithBotOpening a && negb (botAlreadyOpened st) in
  onState st (a, b) =
    (mkApp (Some st) waiting ""
       (if gameChanged a st then buildLogsFromHistory st else logs a)
       false (waiting && setupSubmitting a) (setupHumanSide a) (setupDifficulty a)
       None (Some (id st)) waiting,
     writeGameIdToLocalStorage (id st) (writeIdToUrl (id st) b)).
Proof.
  destruct a as [s l m lg so ss hs d sf cid p]. unfold onState.
  destruct (gameChanged _ st), p, (botAlreadyOpened st), so, ss; reflexivity.
Qed.

Lemma storage_write_twice id b :
  writeGameIdToLocalStorage id (writeIdToUrl id (writeGameIdToLocalStorage id (writeIdToUrl id b)))
  = writeGameIdToLocalStorage id (writeIdToUrl id b).
Proof.
  destruct b as [g denied items].
  unfold writeGameIdToLocalStorage, writeIdToUrl, setItem; simpl.
  destruct denied; simpl; [done|]. by rewrite insert_insert_eq.
Qed.

(** X6. Delivering the same [state] snapshot twice in a row leaves the
    component and the browser exactly as delivering it once. *)
Theorem state_push_idempotent (st : TablutState) (w : World) :
  after (StatePush st) (after (StatePush st) w) = after (StatePush st) w.
Proof.
  destruct w as [a b]. unfold after, step; cbn [app browser fst].
  rewrite (onState_closed_form st a b). cbn zeta. cbn [app browser fst].
  rewrite onState_closed_form. cbn zeta.
  assert (Hsame : ∀ a', currentStateGameId a' = Some (id st) → gameChanged a' st = false)
    by (intros a' Ha; unfold gameChanged; by rewrite Ha, bool_decide_eq_true_2).
  match goal with
  | |- context [gameChanged ?x st] => rewrite (Hsame x) by reflexivity
  end.
  rewrite storage_write_twice. simpl.
  destruct (pendingNewGameWithBotOpening a), (botAlreadyOpened st), (setupSubmitting a);
    reflexivity.
Qed.

(** Only a state push and [startNewGame] touch the held snapshot, the
    remembered identifier or the browser. *)
Lemma frame_after e w :
  is_state_push e = false → e ≠ StartNewGame →
  state (app (after e w)) = state (app w)
  ∧ currentStateGameId (app (after e w)) = currentStateGameId (app w)
  ∧ browser (after e w) = browser w.
Proof.
  intros Hpush Hnew. destruct w as [a b].
  destruct e; try done; unfold after, step; simpl;
    unfold onMoveResult, onTurnNote, onBotThinking, onGameOver, bootstrapGame,
      onNewGameClick, onDifficultyChange, onSelectHumanSide, onCellClick, resume,
      startNewGame_resume, runAction_resume, runAction, pushLog;
    repeat case_match; simplify_eq/=; done.
Qed.

Lemma identity_in_sync_after e w : identity_in_sync w → identity_in_sync (after e w).
Proof.
  intros Hs.
  assert (Hframe : is_state_push e = false → e ≠ StartNewGame →
                   identity_in_sync (after e w)).
  { intros Hp Hn. destruct (frame_after e w Hp Hn) as (H1 & H2 & H3).
    unfold identity_in_sync. by rewrite H1, H2, H3. }
  destruct e; try (by apply Hframe).
  - destruct w as [a [g denied items]].
    unfold identity_in_sync, after, step; cbn [app browser fst].
    rewrite onState_closed_form; cbn zeta; cbn [app browser fst state currentStateGameId].
    unfold writeGameIdToLocalStorage, writeIdToUrl, setItem; simpl.
    destruct denied; simpl; repeat split; try done. intros _. by rewrite lookup_insert_eq.
  - by destruct w as [[] ?].
Qed.

(** X7. In every state the component can reach, the remembered game
    identifier is the identifier of the held snapshot (and is unset exactly
    when no snapshot is held), and while a snapshot is held the [g] parameter
    of the URL names it, as does local storage unless it refuses access. *)
Theorem identity_stays_in_sync (evs : list Event) (b : Browser) :
  identity_in_sync (run evs (mkWorld init b)).
Proof.
  induction evs as [|e evs IH] using rev_ind; [done|].
  rewrite events_snoc. by apply identity_in_sync_after.
Qed.

Lemma same_square_self p : same_square p (row p) (col p) = true.
Proof. apply same_square_eq. by destruct p. Qed.

Lemma selection_playable_after e w :
  selection_playable (app w) → selection_playable (app (after e w)).
Proof.
  unfold selection_playable. intros Hs. open_world w.
  destruct e; simpl in *;
    try (step_cases; done);
    try (step_cases; destruct Hs as (st' & ? & ? & ? & ?); simplify_eq/=;
         eexists; repeat split; eauto; done).
  (* CellClick *)
  unfold after, step, onCellClick, runAction; simpl.
  destruct state0 as [st|]; simpl; [|done].
  destruct (humanTurn _) eqn:Hturn; simpl;
    [|destruct selectedFrom0; [destruct Hs as (? & ? & ? & _)|]; done].
  destruct selectedFrom0 as [from|]; simpl.
  - destruct (same_square from r c); simpl; [done|].
    destruct (existsb _ _); simpl; [done|].
    destruct (isHumanPiece _ _ && hasMoveFrom _ _) eqn:Hok; simpl; [|done].
    apply andb_true_iff in Hok as [Hp Hm].
    exists st. repeat split; done.
  - destruct (isHumanPiece _ _ && hasMoveFrom _ _) eqn:Hok; simpl; [|done].
    apply andb_true_iff in Hok as [Hp Hm].
    exists st. repeat split; done.
Qed.

Lemma hasMoveFrom_targets a p :
  hasMoveFrom a p = true → selectedTargets (set_selectedFrom (Some p) a) ≠ [].
Proof.
  destruct a as [s l m lg so ss hs d sf cid pn]; unfold hasMoveFrom, selectedTargets; simpl.
  destruct s as [st|]; [|done].
  induction (legalMoves st) as [|mv mvs IH]; simpl; [done|].
  destruct (same_square (mv_from mv) (row p) (col p)); simpl; [done|]. exact IH.
Qed.

Lemma selection_playable_run evs b :
  selection_playable (app (run evs (mkWorld init b))).
Proof.
  induction evs as [|e evs IH] using rev_ind; [exact I|].
  rewrite events_snoc. by apply selection_playable_after.
Qed.

(** X8. In every state the component can reach, a held selection is a
    square of the held snapshot that carries a piece of the human side, on
    the human's turn of a game in progress, and it has at least one
    highlighted destination. *)
Theorem selection_stays_playable (evs : list Event) (b : Browser) (p : Pos) :
  let a := app (run evs (mkWorld init b)) in
  selectedFrom a = Some p →
  (∃ st, state a = Some st
         ∧ sideToMove st = humanSide st ∧ phase st = IN_PROGRESS
         ∧ isHumanPiece (pieceAt a (row p) (col p)) (humanSide st) = true)
  ∧ selectedTargets a ≠ [].
Proof.
  intros a Hsel.
  pose proof (selection_playable_run evs b) as Hinv. fold a in Hinv.
  unfold selection_playable in Hinv. rewrite Hsel in Hinv.
  destruct Hinv as (st & Hst & Hturn & Hpiece & Hmove).
  split.
  - exists st. unfold humanTurn in Hturn. rewrite Hst in Hturn.
    apply andb_true_iff in Hturn as [H1 H2].
    apply bool_decide_eq_true in H1, H2. done.
  - apply hasMoveFrom_targets in Hmove.
    destruct a; simpl in *; by subst.
Qed.

Lemma target_is_listed_move a st from r c :
  state a = Some st → selectedFrom a = Some from →
  existsb (fun p => same_square p r c) (selectedTargets a) = true →
  ∃ m, m ∈ legalMoves st ∧ mv_from m = from ∧ mv_to m = mkPos r c.
Proof.
  intros Hst Hsel Hex. apply existsb_same_square in Hex.
  unfold selectedTargets in Hex. rewrite Hst, Hsel in Hex.
  apply list_elem_of_fmap in Hex as (m & Hto & Hin).
  apply list_elem_of_In, filter_In in Hin as [Hin Hfrom].
  exists m. split; [by apply list_elem_of_In|].
  apply same_square_eq in Hfrom. split; [|done]. rewrite Hfrom. by destruct from.
Qed.

(** X9. Whatever the state, a board click sends nothing but one [move:play]
    for a move the held snapshot lists as legal, from the selected square to
    the clicked one, under the held game identifier, and only on the human's
    turn. *)
Theorem click_requests_listed_move (r c : Z) (w : World) (req : Request) :
  req ∈ snd (step (CellClick r c) w) →
  ∃ st from m,
    state (app w) = Some st
    ∧ selectedFrom (app w) = Some from
    ∧ humanTurn (app w) = true
    ∧ m ∈ legalMoves st ∧ mv_from m = from ∧ mv_to m = mkPos r c
    ∧ snd (step (CellClick r c) w) = [playMove (id st) (mv_from m) (mv_to m)].
Proof.
  destruct w as [a b]. unfold step, onCellClick, runAction; cbn [app browser].
  destruct (state a) as [st|] eqn:Hst; [|by intros ?%elem_of_nil].
  destruct (humanTurn a) eqn:Hturn; cbn [negb]; [|by intros ?%elem_of_nil].
  destruct (selectedFrom a) as [from|] eqn:Hsel.
  2: { destruct (_ && _); by intros ?%elem_of_nil. }
  destruct (same_square from r c); [by intros ?%elem_of_nil|].
  destruct (existsb _ (selectedTargets a)) eqn:Hex.
  - intros _. destruct (target_is_listed_move a st from r c Hst Hsel Hex)
      as (m & Hin & Hfrom & Hto).
    exists st, from, m. rewrite Hfrom, Hto. done.
  - destruct (_ && _); by intros ?%elem_of_nil.
Qed.

(** X10. One event hands the service at most one request, of the kind that
    belongs to the event: [join] at bootstrap, [game:new] for a new game,
    [game:change:diff] for a difficulty change (none while no snapshot is
    held), [move:play] for a click.  No push notification and no settling
    call sends anything: nothing is retried. *)
Theorem requests_per_event (e : Event) (w : World) :
  length (snd (step e w)) ≤ 1
  ∧ (∀ req, req ∈ snd (step e w) → request_kind e = Some (fst req))
  ∧ match e with
    | StartNewGame =>
        snd (step e w) = [gameNew (setupHumanSide (app w)) (setupDifficulty (app w)) None]
    | DifficultyChange next =>
        snd (step e w) =
          match state (app w) with
          | Some st => [changeDifficulty (id st) next]
          | None => []
          end
    | Bootstrap | CellClick _ _ => True
    | _ => snd (step e w) = []
    end.
Proof.
  destruct w as [a b].
  destruct e; unfold step; cbn [app browser];
    unfold bootstrapGame, startNewGame, onDifficultyChange, onCellClick, runAction, onState;
    repeat case_match; simplify_eq/=;
    repeat split; try done; try lia;
    intros req Hin; try (by apply elem_of_nil in Hin);
    apply list_elem_of_singleton in Hin; by subst.
Qed.

Lemma nonblank_spec s :
  negb (String.eqb s "") && negb (String.eqb (JS.trim s) "")
  = negb (String.eqb (JS.trim s) "").
Proof. destruct s; [done|]. done. Qed.

Lemma read_url_trimmed b g : readIdFromUrl b = Some g → JS.trim g = g ∧ g ≠ "".
Proof.
  destruct b as [g0 denied items]. unfold readIdFromUrl; simpl.
  destruct g0 as [g1|]; [|done]. rewrite nonblank_spec.
  destruct (String.eqb (JS.trim g1) "") eqn:Hb; [done|]. simpl. intros [= <-].
  split; [apply TrimFacts.trim_idem|]. by apply String.eqb_neq.
Qed.

Lemma read_storage_nonblank b g :
  readGameIdFromLocalStorage b = Some g → JS.trim g ≠ "".
Proof.
  destruct b as [g0 denied items]. unfold readGameIdFromLocalStorage, getItem; simpl.
  destruct denied; simpl; [done|].
  destruct (items !! LS_KEY) as [g1|]; [|done]. rewrite nonblank_spec.
  destruct (String.eqb (JS.trim g1) "") eqn:Hb; [done|]. simpl. intros [= <-].
  by apply String.eqb_neq.
Qed.


Lemma read_url_nonempty b g : readIdFromUrl b = Some g → String.eqb g "" = false.
Proof. intros H. apply String.eqb_neq. by apply (read_url_trimmed b). Qed.

Lemma read_storage_nonempty b g :
  readGameIdFromLocalStorage b = Some g → String.eqb g "" = false.
Proof.
  intros H. apply String.eqb_neq. intros ->. by apply (read_storage_nonblank b "").
Qed.

(** X12. [bootstrapGame] leaves the browser alone and joins the game named by
    the URL, else the one named by local storage, showing the loading
    message; with no usable identifier in either it sends nothing, turns
    [loading] off and opens the setup prompt. *)
Theorem bootstrap_resumes_or_prompts (a : App) (b : Browser) :
  let '(a', b', reqs) := bootstrapGame (a, b) in
  b' = b
  ∧ match readIdFromUrl b, readGameIdFromLocalStorage b with
    | Some g, _ | None, Some g =>
        reqs = [join g] ∧ loading a' = true
        ∧ message a' = "Cargando partida..." ∧ setupOpen a' = setupOpen a
    | None, None =>
        reqs = [] ∧ loading a' = false ∧ message a' = "" ∧ setupOpen a' = true
    end.
Proof.
  unfold bootstrapGame, runAction.
  destruct (readIdFromUrl b) as [g|] eqn:Hu.
  - rewrite (read_url_nonempty b g Hu). by destruct a.
  - destruct (readGameIdFromLocalStorage b) as [g|] eqn:Hs.
    + rewrite (read_storage_nonempty b g Hs). by destruct a.
    + by destruct a.
Qed.

(** X13. After a snapshot with a non-blank identifier was accepted, a page
    reload (a fresh component on the browser as left) joins that game; a
    visit without the query parameter joins it too as long as local storage
    works. *)
Theorem reload_resumes_game (st : TablutState) (w : World) :
  JS.trim (id st) ≠ "" →
  let b := browser (after (StatePush st) w) in
  snd (step Bootstrap (mkWorld init b)) = [join (JS.trim (id st))]
  ∧ (storage_denied (browser w) = false →
     snd (step Bootstrap (mkWorld init (mkBrowser None false (storage b))))
     = [join (id st)]).
Proof.
  intros Hid b.
  assert (Hb : b = writeGameIdToLocalStorage (id st) (writeIdToUrl (id st) (browser w))).
  { subst b. destruct w as [a0 b0]. unfold after, step; cbn [app browser fst].
    by rewrite onState_closed_form. }
  apply String.eqb_neq in Hid.
  assert (Hne : String.eqb (id st) "" = false).
  { apply String.eqb_neq. intros H. rewrite H in Hid. done. }
  destruct w as [a0 [g0 denied items]]; simpl in Hb.
  unfold writeGameIdToLocalStorage, writeIdToUrl, setItem in Hb; simpl in Hb.
  split.
  - unfold step, bootstrapGame, runAction, readIdFromUrl; cbn [app browser].
    destruct denied; rewrite Hb; simpl; rewrite Hne, Hid; simpl;
      destruct (String.eqb (JS.trim (id st)) "") eqn:Hx; done.
  - simpl. intros ->. rewrite Hb; simpl.
    unfold step, bootstrapGame, runAction, readIdFromUrl, readGameIdFromLocalStorage,
      getItem; simpl.
    rewrite lookup_insert_eq, Hne, Hid. simpl. by rewrite Hne.
Qed.

Lemma failureText_ack_timeout prefix ev :
  failureText prefix (ack_timeout_error ev)
  = prefix +:+ ". La jugada está tardando más de lo esperado. Intenta de nuevo en unos segundos.".
Proof.
  unfold failureText, ack_timeout_error, toFriendlyError; simpl JS.opt_get.
  cbn [JS.to_string JS.string_or_empty].
  rewrite SessionFacts.prefix_app.
  change ("ack_timeout:" +:+ ev) with (String "a" ("ck_timeout:" +:+ ev)).
  done.
Qed.

(** X14. A request that is out and whose 20 s timer fires before any
    acknowledgment is rejected, and handing that rejection to the component
    turns [loading] off and shows the call's failure message followed by the
    text about the move taking longer than expected. *)
Theorem unanswered_call_reaches_user
    (k : Awaiting) (w : World) con ev pl (sooner later : list Signal) :
  let c := deliver_all sooner (emitAck con ev pl) in
  stage c = AwaitAck → settled c = false →
  ∃ err,
    settlements (deliver_all later (deliver AckTimerFires c)) = [Rejected err]
    ∧ let a' := app (after (Settles k (Failed err)) w) in
      loading a' = false
      ∧ message a' =
          errorMessage_of k
          +:+ ". La jugada está tardando más de lo esperado. Intenta de nuevo en unos segundos.".
Proof.
  intros c Hst Hse.
  destruct (SocketFacts.awaiting_ack_undecided sooner con ev pl Hst Hse) as [Hu _].
  fold c in Hu.
  exists (ack_timeout_error ev).
  split; [by apply (SocketFacts.first_timeout_decides ev)|].
  destruct w as [a b]; destruct a.
  destruct k; simpl; by rewrite failureText_ack_timeout.
Qed.

(** X15. The message shown for a failed call is the call's own failure
    message, alone or followed by one of three fixed texts; the raw error
    never appears in it.  [socket_connect_timeout] and
    [socket_not_connected] give the connection text, [illegal_move] the
    invalid-move text, and any other message outside the [ack_timeout:]
    family gives the failure message alone. *)
Theorem failure_text_never_leaks (prefix : string) (err : JS.value) :
  (failureText prefix err = prefix
   ∨ ∃ t, t ∈ friendly_texts ∧ failureText prefix err = prefix +:+ ". " +:+ t)
  ∧ (∀ msg,
       String.prefix "ack_timeout:" msg = false →
       msg ≠ "socket_connect_timeout" → msg ≠ "socket_not_connected" →
       msg ≠ "illegal_move" →
       failureText prefix (JS.new_Error (JS.Str msg)) = prefix)
  ∧ failureText prefix (JS.new_Error (JS.Str "socket_connect_timeout"))
    = prefix +:+ ". No se pudo conectar al servidor de juego."
  ∧ failureText prefix (JS.new_Error (JS.Str "socket_not_connected"))
    = prefix +:+ ". No se pudo conectar al servidor de juego."
  ∧ failureText prefix (JS.new_Error (JS.Str "illegal_move"))
    = prefix +:+ ". La jugada no es válida según el estado actual.".
Proof.
  split; [|split; [|done]].
  - unfold failureText, toFriendlyError.
    destruct (String.eqb _ ""); [by left|].
    destruct (String.prefix _ _); simpl.
    { right. eexists. split; [|done]. unfold friendly_texts. set_solver. }
    destruct (_ || _); simpl.
    { right. eexists. split; [|done]. unfold friendly_texts. set_solver. }
    destruct (String.eqb _ "illegal_move"); simpl; [|by left].
    right. eexists. split; [|done]. unfold friendly_texts. set_solver.
  - intros msg Hp H1 H2 H3. unfold failureText, toFriendlyError; simpl.
    apply String.eqb_neq in H1, H2, H3. rewrite Hp, H1, H2, H3. simpl.
    by destruct (String.eqb msg "").
Qed.

(** X16. A square is highlighted as a target exactly when a snapshot is
    held, a square is selected, and the snapshot lists a legal move from the
    selected square to that square. *)
Theorem isTarget_iff_listed_move (a : App) (r c : Z) :
  isTarget a r c = true ↔
  ∃ st from m,
    state a = Some st ∧ selectedFrom a = Some from
    ∧ m ∈ legalMoves st ∧ mv_from m = from ∧ mv_to m = mkPos r c.
Proof.
  unfold isTarget. rewrite existsb_same_square. unfold selectedTargets. split.
  - destruct (state a) as [st|]; [|by intros ?%elem_of_nil].
    destruct (selectedFrom a) as [from|]; [|by intros ?%elem_of_nil].
    intros (m & Hto & Hin)%list_elem_of_fmap.
    apply list_elem_of_In, filter_In in Hin as [Hin Hfrom].
    exists st, from, m. repeat split; try done; [by apply list_elem_of_In|].
    apply same_square_eq in Hfrom. rewrite Hfrom. by destruct from.
  - intros (st & from & m & -> & -> & Hin & Hfrom & Hto).
    apply list_elem_of_fmap. exists m. split; [done|].
    apply list_elem_of_In, filter_In. split; [by apply list_elem_of_In|].
    apply same_square_eq. rewrite Hfrom. by destruct from.
Qed.

(** X17. With a board of 81 entries, reading [pieceAt] over the nine rows
    and nine columns of the template, row by row, gives back the board; any
    coordinates whose index falls outside the board read as no piece. *)
Theorem grid_reads_board (a : App) (st : TablutState) :
  state a = Some st → length (board st) = 81 →
  flat_map (fun r => map (fun c => pieceAt a r c) cols) rows = board st
  ∧ (∀ r c, (r * 9 + c < 0 ∨ 81 <= r * 9 + c)%Z → pieceAt a r c = None).
Proof.
  intros Hst Hlen. split.
  - unfold pieceAt. rewrite Hst.
    generalize dependent (board st). intros cells Hlen.
    do 81 (destruct cells as [|? cells]; [done|]).
    destruct cells; [|done]. reflexivity.
  - intros r c Hout. unfold pieceAt. rewrite Hst. simpl.
    destruct (Z.ltb_spec (r * 9 + c) 0) as [|Hge]; [done|].
    rewrite lookup_ge_None_2; [done|]. lia.
Qed.

Lemma substring_all s : String.substring 0 (String.length s) s = s.
Proof. induction s as [|c s IH]; [done|]. simpl. by rewrite IH. Qed.

Lemma two_digits_shape n :
  n < 100 → ∃ d1 d2, two_digits n = String d1 (String d2 "").
Proof.
  intros Hn.
  assert (Hall : forallb (fun k => Nat.eqb (String.length (two_digits k)) 2) (seq 0 100)
                 = true) by (by vm_compute).
  rewrite forallb_forall in Hall.
  assert (Hlen : String.length (two_digits n) = 2).
  { apply Nat.eqb_eq, Hall, in_seq. lia. }
  destruct (two_digits n) as [|d1 [|d2 [|]]]; try done. by exists d1, d2.
Qed.

(** X18. For a clock reading in range the time stamp of a pushed log line
    takes exactly 11 characters, after which the message follows unchanged;
    a pushed line is never equal to a line rebuilt from the move history. *)
Theorem stamp_width (now : Clock) (msg : string) :
  clock_in_range now →
  String.length (stamp now msg) = 11 + String.length msg
  ∧ String.substring 11 (String.length msg) (stamp now msg) = msg
  ∧ (∀ mv, stamp now msg ≠ historyLine mv).
Proof.
  intros (Hh & Hm & Hs).
  destruct (two_digits_shape (hours now)) as (h1 & h2 & Hhh); [lia|].
  destruct (two_digits_shape (minutes now)) as (m1 & m2 & Hmm); [lia|].
  destruct (two_digits_shape (seconds now)) as (s1 & s2 & Hss); [lia|].
  unfold stamp. rewrite Hhh, Hmm, Hss.
  change ("[" +:+ String h1 (String h2 "") +:+ ":" +:+ String m1 (String m2 "") +:+ ":"
            +:+ String s1 (String s2 "") +:+ "] " +:+ msg)
    with (String "[" (String h1 (String h2 (String ":" (String m1 (String m2
            (String ":" (String s1 (String s2 (String "]" (String " " msg))))))))))).
  split; [done|]. split; [simpl; apply substring_all|].
  intros mv. unfold historyLine.
  change ("#" +:+ ?x) with (String "#" x). done.
Qed.

Lemma submitting_implies_waiting_after e w :
  (setupSubmitting (app w) = true → pendingNewGameWithBotOpening (app w) = true) →
  setupSubmitting (app (after e w)) = true →
  pendingNewGameWithBotOpening (app (after e w)) = true.
Proof.
  destruct w as [a b]. destruct a as [s l m lg so ss hs d sf cid p]. cbn [app].
  destruct e; unfold after, step; cbn [app browser fst];
    try rewrite onState_closed_form; cbn zeta; cbn [app browser fst];
    unfold onMoveResult, onTurnNote, onBotThinking, onGameOver, bootstrapGame,
      startNewGame, onNewGameClick, onDifficultyChange, onSelectHumanSide, onCellClick,
      resume, startNewGame_resume, runAction_resume, runAction, pushLog;
    repeat case_match; simplify_eq/=; try done;
    try (intros H1 H2; apply andb_true_iff in H2 as [? ?]; done);
    try (destruct active; done).
Qed.

(** X19. In every state the component can reach, [setupSubmitting] is on
    only while the component waits for the bot's opening move. *)
Theorem submitting_only_while_waiting (evs : list Event) (b : Browser) :
  let a := app (run evs (mkWorld init b)) in
  setupSubmitting a = true → pendingNewGameWithBotOpening a = true.
Proof.
  induction evs as [|e evs IH] using rev_ind; [done|].
  rewrite events_snoc. by apply submitting_implies_waiting_after.
Qed.

Lemma listed_move_has_move a st m :
  state a = Some st → m ∈ legalMoves st → hasMoveFrom a (mv_from m) = true.
Proof.
  intros Hst Hin. unfold hasMoveFrom. rewrite Hst.
  apply existsb_exists. exists m. split; [by apply list_elem_of_In|].
  apply same_square_self.
Qed.

(** X20. The two-click move: on the human's turn with nothing selected, a
    click on a piece of the human side that has a listed move selects it and
    sends nothing; a click on the destination of that move, when it differs
    from the origin, then clears the selection, turns [loading] on and sends
    [move:play] with the held identifier, the origin and the destination. *)
Theorem two_clicks_play_move (w : World) (st : TablutState) (m : TablutMove) :
  state (app w) = Some st →
  humanTurn (app w) = true →
  selectedFrom (app w) = None →
  m ∈ legalMoves st →
  isHumanPiece (pieceAt (app w) (row (mv_from m)) (col (mv_from m))) (humanSide st) = true →
  mv_to m ≠ mv_from m →
  let w1 := after (CellClick (row (mv_from m)) (col (mv_from m))) w in
  selectedFrom (app w1) = Some (mv_from m)
  ∧ snd (step (CellClick (row (mv_from m)) (col (mv_from m))) w) = []
  ∧ step (CellClick (row (mv_to m)) (col (mv_to m))) w1
    = (mkWorld (set_loading true (set_selectedFrom None (app w1))) (browser w),
       [playMove (id st) (mv_from m) (mv_to m)]).
Proof.
  intros Hst Hturn Hsel Hin Hpiece Hne.
  pose proof (listed_move_has_move (app w) st m Hst Hin) as Hmove.
  destruct w as [a b]; cbn [app browser] in *.
  assert (Hclick1 : onCellClick (row (mv_from m)) (col (mv_from m)) a
                    = (set_selectedFrom (Some (mv_from m)) a, [])).
  { unfold onCellClick. rewrite Hst, Hturn, Hsel, Hpiece. simpl.
    replace (mkPos (row (mv_from m)) (col (mv_from m))) with (mv_from m)
      by (by destruct (mv_from m)).
    by rewrite Hmove. }
  unfold after, step; cbn [app browser fst snd]. rewrite Hclick1. cbn [fst snd app browser].
  split; [by destruct a|]. split; [done|].
  set (a1 := set_selectedFrom (Some (mv_from m)) a).
  assert (Hst1 : state a1 = Some st) by (by destruct a).
  assert (Hturn1 : humanTurn a1 = true) by (destruct a; simpl in *; done).
  assert (Hsel1 : selectedFrom a1 = Some (mv_from m)) by (by destruct a).
  assert (Htarget : existsb (fun p => same_square p (row (mv_to m)) (col (mv_to m)))
                      (selectedTargets a1) = true).
  { apply existsb_same_square. unfold selectedTargets. rewrite Hst1, Hsel1.
    apply list_elem_of_fmap. exists m. split; [by destruct (mv_to m)|].
    apply list_elem_of_In, filter_In. split; [by apply list_elem_of_In|].
    apply same_square_self. }
  assert (Hnot : same_square (mv_from m) (row (mv_to m)) (col (mv_to m)) = false).
  { apply not_true_is_false. intros H. apply same_square_eq in H.
    apply Hne. rewrite H. by destruct (mv_to m). }
  unfold onCellClick, runAction. rewrite Hst1, Hturn1, Hsel1. simpl.
  rewrite Hnot, Htarget.
  replace (mkPos (row (mv_to m)) (col (mv_to m))) with (mv_to m) by (by destruct (mv_to m)).
  done.
Qed.

(** *** Instances *)

Lemma selection_stays_playable_witness :
  selectedTargets
    (app (run [StatePush Samples.snapshot_attacker; CellClick 3 4]
            (mkWorld init Samples.browser_plain)))
  ≠ [].
Proof.
  pose proof (selection_stays_playable
                [StatePush Samples.snapshot_attacker; CellClick 3 4]
                Samples.browser_plain (mkPos 3 4) eq_refl)
    as (_ & H).
  exact H.
Defined.

Lemma click_requests_listed_move_witness :
  ∃ st from m,
    state (app (run [StatePush Samples.snapshot_attacker; CellClick 3 4]
                  (mkWorld init Samples.browser_plain))) = Some st
    ∧ selectedFrom (app (run [StatePush Samples.snapshot_attacker; CellClick 3 4]
                           (mkWorld init Samples.browser_plain))) = Some from
    ∧ humanTurn (app (run [StatePush Samples.snapshot_attacker; CellClick 3 4]
                        (mkWorld init Samples.browser_plain))) = true
    ∧ m ∈ legalMoves st ∧ mv_from m = from ∧ mv_to m = mkPos 4 4
    ∧ snd (step (CellClick 4 4)
             (run [StatePush Samples.snapshot_attacker; CellClick 3 4]
                (mkWorld init Samples.browser_plain)))
      = [playMove (id st) (mv_from m) (mv_to m)].
Proof.
  apply (click_requests_listed_move 4 4
           (run [StatePush Samples.snapshot_attacker; CellClick 3 4]
              (mkWorld init Samples.browser_plain))
           (playMove "g2" (mkPos 3 4) (mkPos 4 4))).
  vm_compute. apply list_elem_of_here.
Defined.

Lemma reload_resumes_game_witness :
  snd (step Bootstrap
         (mkWorld init
            (browser (after (StatePush Samples.snapshot_opened)
                        (mkWorld init Samples.browser_plain)))))
  = [join "g1"].
Proof.
  assert (Hid : JS.trim (id Samples.snapshot_opened) ≠ "") by discriminate.
  pose proof (reload_resumes_game Samples.snapshot_opened
                (mkWorld init Samples.browser_plain) Hid)
    as (H & _).
  exact H.
Defined.

Lemma unanswered_call_reaches_user_witness :
  ∃ err,
    settlements (deliver_all [Ack (ok_envelope JS.Null)]
                   (deliver AckTimerFires
                      (deliver_all [] (emitAck true "move:play" JS.Null))))
    = [Rejected err]
    ∧ let a' := app (after (Settles AwaitMove (Failed err))
                       (mkWorld init Samples.browser_plain)) in
      loading a' = false
      ∧ message a' =
          errorMessage_of AwaitMove
          +:+ ". La jugada está tardando más de lo esperado. Intenta de nuevo en unos segundos.".
Proof.
  exact (unanswered_call_reaches_user AwaitMove (mkWorld init Samples.browser_plain)
           true "move:play" JS.Null [] [Ack (ok_envelope JS.Null)] eq_refl eq_refl).
Defined.

Lemma grid_reads_board_witness :
  flat_map
    (fun r =>
       map (fun c =>
              pieceAt (app (after (StatePush Samples.snapshot_attacker)
                              (mkWorld init Samples.browser_plain))) r c)
         cols)
    rows
  = Samples.board_one_attacker.
Proof.
  pose proof (grid_reads_board
                (app (after (StatePush Samples.snapshot_attacker)
                        (mkWorld init Samples.browser_plain)))
                Samples.snapshot_attacker eq_refl eq_refl)
    as (H & _).
  exact H.
Defined.

Lemma stamp_width_witness :
  String.length (stamp Samples.noon "hola") = 11 + String.length "hola".
Proof.
  assert (Hclock : clock_in_range Samples.noon) by (unfold clock_in_range; simpl; lia).
  pose proof (stamp_width Samples.noon "hola" Hclock) as (H & _).
  exact H.
Defined.

Lemma submitting_only_while_waiting_witness :
  pendingNewGameWithBotOpening
    (app (run [StartNewGame] (mkWorld init Samples.browser_plain))) = true.
Proof.
  exact (submitting_only_while_waiting [StartNewGame] Samples.browser_plain eq_refl).
Defined.

Lemma two_clicks_play_move_witness :
  snd (step (CellClick 4 4)
         (after (CellClick 3 4)
            (after (StatePush Samples.snapshot_attacker)
               (mkWorld init Samples.browser_plain))))
  = [playMove "g2" (mkPos 3 4) (mkPos 4 4)].
Proof.
  assert (Hin : mkMove (mkPos 3 4) (mkPos 4 4) [] ∈ legalMoves Samples.snapshot_attacker)
    by apply list_elem_of_here.
  assert (Hne : mv_to (mkMove (mkPos 3 4) (mkPos 4 4) [])
                ≠ mv_from (mkMove (mkPos 3 4) (mkPos 4 4) []))
    by discriminate.
  pose proof (two_clicks_play_move
                (after (StatePush Samples.snapshot_attacker)
                   (mkWorld init Samples.browser_plain))
                Samples.snapshot_attacker (mkMove (mkPos 3 4) (mkPos 4 4) [])
                eq_refl eq_refl eq_refl Hin eq_refl Hne)
    as (_ & _ & H).
  exact (f_equal snd H).
Defined.

End AppMore.
